(** * EventManagment: schema, row-level security and the booking front end

    A shallow embedding of
    - the initial migration (three tables, the [booking_status] enum, the
      row-level-security policies, the [handle_new_user] trigger and the
      seed rows),
    - [App] ([fetchEvents], [handleBookEvent], [handleBookingSubmit],
      [totalPages]), [EventCard] and [BookingModal],
    followed by the properties of the specification that concern them. *)

From stdpp Require Import base decidable option numbers list strings sorting.
From Stdlib Require Import ZArith Lia.

Local Open Scope string_scope.
Local Open Scope Z_scope.

(** ** SQL values *)

(** [uuid] columns travel as text between the client and the backend
    ([id: string] in the client types); a uuid is modelled by its text. *)
Definition uuid : Set := string.
(** [timestamptz]: an instant, as a number of microseconds. *)
Definition timestamptz : Set := Z.
(** [time]: kept as the text the backend returns ([time: string]). *)
Definition sql_time : Set := string.

(** [date]: a calendar date, ordered chronologically. *)
Record sql_date : Set := mk_date { year : Z; month : Z; day : Z }.

Global Instance sql_date_eq_dec : EqDecision sql_date.
Proof. solve_decision. Defined.

Definition date_compare (d1 d2 : sql_date) : comparison :=
  match year d1 ?= year d2 with
  | Eq => match month d1 ?= month d2 with
          | Eq => day d1 ?= day d2
          | c => c
          end
  | c => c
  end.

Definition date_le (d1 d2 : sql_date) : Prop := date_compare d1 d2 ≠ Gt.

Global Instance date_le_dec d1 d2 : Decision (date_le d1 d2).
Proof. unfold date_le. apply _. Defined.

(** Three-valued logic: a SQL boolean is [Some true], [Some false] or NULL. *)
Definition sql_bool : Set := option bool.

Definition sql_eq {A} `{EqDecision A} (x y : option A) : sql_bool :=
  match x, y with
  | Some a, Some b => Some (bool_decide (a = b))
  | _, _ => None
  end.

Definition sql_and (p q : sql_bool) : sql_bool :=
  match p, q with
  | Some false, _ | _, Some false => Some false
  | Some true, Some true => Some true
  | _, _ => None
  end.

(** A row passes a [WHERE], [USING] or [WITH CHECK] expression only when
    the expression is true; false and NULL both fail. *)
Definition sql_true (p : sql_bool) : bool :=
  match p with
  | Some true => true
  | _ => false
  end.

(** A column in an [INSERT]: left out (its [DEFAULT] applies) or given,
    possibly as NULL. *)
Inductive colval (A : Type) : Type :=
| DEFAULT
| VALUE (v : option A).
Arguments DEFAULT {A}.
Arguments VALUE {A} v.

Definition col_or {A} (dflt : option A) (c : colval A) : option A :=
  match c with
  | DEFAULT => dflt
  | VALUE v => v
  end.

Inductive sql_error : Set :=
| row_level_security_violation
| not_null_violation
| unique_violation
| foreign_key_violation
| numeric_value_out_of_range
| invalid_text_representation.

Global Instance sql_error_eq_dec : EqDecision sql_error.
Proof. solve_decision. Defined.

(** The outcome of a statement: an error (the statement changes nothing)
    or its result. *)
Definition sql_result (A : Type) : Type := sql_error + A.

Global Instance sql_result_ret : MRet sql_result := λ _ x, inr x.
Global Instance sql_result_bind : MBind sql_result :=
  λ _ _ f m, match m with inl e => inl e | inr x => f x end.
Global Instance sql_result_fmap : FMap sql_result :=
  λ _ _ f m, match m with inl e => inl e | inr x => inr (f x) end.

Definition require (b : bool) (e : sql_error) : sql_result unit :=
  if b then inr tt else inl e.

Definition not_null {A} (v : option A) : sql_result A :=
  match v with
  | Some x => inr x
  | None => inl not_null_violation
  end.

(** ** The schema *)

(** [CREATE TYPE booking_status AS ENUM ('pending', 'confirmed', 'cancelled')] *)
Inductive booking_status : Set := pending | confirmed | cancelled.

Global Instance booking_status_eq_dec : EqDecision booking_status.
Proof. solve_decision. Defined.

Definition booking_status_label (s : booking_status) : string :=
  match s with
  | pending => "pending"
  | confirmed => "confirmed"
  | cancelled => "cancelled"
  end.

Definition booking_status_values : list booking_status :=
  [pending; confirmed; cancelled].

(** Input conversion of a text to the enum: only the three labels are
    accepted. *)
Definition booking_status_in (s : string) : sql_result booking_status :=
  if bool_decide (s = "pending") then inr pending
  else if bool_decide (s = "confirmed") then inr confirmed
  else if bool_decide (s = "cancelled") then inr cancelled
  else inl invalid_text_representation.

(** [integer]: 32 bits, signed. *)
Definition integer_in_range (n : Z) : bool :=
  bool_decide (-2147483648 ≤ n ≤ 2147483647).

(** [decimal(10,2)]: held in hundredths; at most ten digits. *)
Definition decimal_10_2_in_range (hundredths : Z) : bool :=
  bool_decide (-9999999999 ≤ hundredths ≤ 9999999999).

Module profiles.
Record row : Set := mk {
  id : uuid;                      (* PRIMARY KEY REFERENCES auth.users *)
  username : option string;       (* UNIQUE *)
  full_name : option string;
  avatar_url : option string;
  is_admin : option bool;         (* DEFAULT false *)
  created_at : option timestamptz;
  updated_at : option timestamptz
}.

(** The columns an [UPDATE ... SET] may assign (the key stays). *)
Record tuple : Set := mk_tuple {
  t_username : option string;
  t_full_name : option string;
  t_avatar_url : option string;
  t_is_admin : option bool;
  t_created_at : option timestamptz;
  t_updated_at : option timestamptz
}.

Definition with_key (k : uuid) (t : tuple) : row :=
  mk k (t_username t) (t_full_name t) (t_avatar_url t) (t_is_admin t)
     (t_created_at t) (t_updated_at t).
End profiles.

Module events.
Record row : Set := mk {
  id : uuid;                      (* PRIMARY KEY DEFAULT gen_random_uuid() *)
  title : string;                 (* NOT NULL *)
  description : option string;
  date : sql_date;                (* NOT NULL *)
  time : sql_time;                (* NOT NULL *)
  location : string;              (* NOT NULL *)
  image_url : option string;
  price : Z;                      (* decimal(10,2) NOT NULL DEFAULT 0 *)
  capacity : Z;                   (* integer NOT NULL DEFAULT 0 *)
  category : option string;
  created_by : option uuid;       (* REFERENCES profiles(id) *)
  created_at : option timestamptz;
  updated_at : option timestamptz
}.

(** The non-key columns of a candidate row, before the constraints are
    checked: every one of them may still be NULL. *)
Record tuple : Set := mk_tuple {
  t_title : option string;
  t_description : option string;
  t_date : option sql_date;
  t_time : option sql_time;
  t_location : option string;
  t_image_url : option string;
  t_price : option Z;
  t_capacity : option Z;
  t_category : option string;
  t_created_by : option uuid;
  t_created_at : option timestamptz;
  t_updated_at : option timestamptz
}.

(** The [VALUES] of an [INSERT]. *)
Record values : Type := mk_values {
  v_id : colval uuid;
  v_title : colval string;
  v_description : colval string;
  v_date : colval sql_date;
  v_time : colval sql_time;
  v_location : colval string;
  v_image_url : colval string;
  v_price : colval Z;
  v_capacity : colval Z;
  v_category : colval string;
  v_created_by : colval uuid;
  v_created_at : colval timestamptz;
  v_updated_at : colval timestamptz
}.

(** The column defaults of [CREATE TABLE events]. *)
Definition defaults (now : timestamptz) (v : values) : tuple :=
  mk_tuple (col_or None (v_title v)) (col_or None (v_description v))
    (col_or None (v_date v)) (col_or None (v_time v))
    (col_or None (v_location v)) (col_or None (v_image_url v))
    (col_or (Some 0) (v_price v)) (col_or (Some 0) (v_capacity v))
    (col_or None (v_category v)) (col_or None (v_created_by v))
    (col_or (Some now) (v_created_at v)) (col_or (Some now) (v_updated_at v)).

(** Column types and [NOT NULL]. *)
Definition typed (k : uuid) (t : tuple) : sql_result row :=
  _ ← require (from_option decimal_10_2_in_range true (t_price t))
        numeric_value_out_of_range;
  _ ← require (from_option integer_in_range true (t_capacity t))
        numeric_value_out_of_range;
  ti ← not_null (t_title t);
  da ← not_null (t_date t);
  tm ← not_null (t_time t);
  lo ← not_null (t_location t);
  pr ← not_null (t_price t);
  ca ← not_null (t_capacity t);
  mret (mk k ti (t_description t) da tm lo (t_image_url t) pr ca
          (t_category t) (t_created_by t) (t_created_at t) (t_updated_at t)).
End events.

Module bookings.
Record row : Set := mk {
  id : uuid;                      (* PRIMARY KEY DEFAULT gen_random_uuid() *)
  event_id : option uuid;         (* REFERENCES events(id) ON DELETE CASCADE *)
  user_id : option uuid;          (* REFERENCES profiles(id) ON DELETE CASCADE *)
  status : option booking_status; (* DEFAULT 'pending' *)
  preferences : option string;
  created_at : option timestamptz;
  updated_at : option timestamptz
}.

Record tuple : Set := mk_tuple {
  t_event_id : option uuid;
  t_user_id : option uuid;
  t_status : option booking_status;
  t_preferences : option string;
  t_created_at : option timestamptz;
  t_updated_at : option timestamptz
}.

(** The [VALUES] of an [INSERT]; the status arrives as text. *)
Record values : Type := mk_values {
  v_id : colval uuid;
  v_event_id : colval uuid;
  v_user_id : colval uuid;
  v_status : colval string;
  v_preferences : colval string;
  v_created_at : colval timestamptz;
  v_updated_at : colval timestamptz
}.

Definition status_in (c : colval string) : sql_result (option booking_status) :=
  match c with
  | DEFAULT => inr (Some pending)
  | VALUE None => inr None
  | VALUE (Some s) => Some <$> booking_status_in s
  end.

Definition with_key (k : uuid) (t : tuple) : row :=
  mk k (t_event_id t) (t_user_id t) (t_status t) (t_preferences t)
     (t_created_at t) (t_updated_at t).
End bookings.

(** The database: the three tables of the migration, and the identities
    of [auth.users] that [profiles.id] references. *)
Record database : Type := mk_database {
  auth_users : list uuid;
  tbl_profiles : list profiles.row;
  tbl_events : list events.row;
  tbl_bookings : list bookings.row
}.

Definition empty_database : database := mk_database [] [] [] [].

Definition set_profiles (db : database) (rows : list profiles.row) : database :=
  mk_database (auth_users db) rows (tbl_events db) (tbl_bookings db).
Definition set_events (db : database) (rows : list events.row) : database :=
  mk_database (auth_users db) (tbl_profiles db) rows (tbl_bookings db).
Definition set_bookings (db : database) (rows : list bookings.row) : database :=
  mk_database (auth_users db) (tbl_profiles db) (tbl_events db) rows.

Definition profile_ids (db : database) : list uuid := profiles.id <$> tbl_profiles db.
Definition event_ids (db : database) : list uuid := events.id <$> tbl_events db.
Definition booking_ids (db : database) : list uuid := bookings.id <$> tbl_bookings db.

(** [PRIMARY KEY] and [UNIQUE]: the key is not among the keys present. *)
Definition key_free (k : uuid) (keys : list uuid) : bool := bool_decide (k ∉ keys).

(** [REFERENCES]: a NULL reference is accepted, any other must be a key
    of the referenced table. *)
Definition references (v : option uuid) (keys : list uuid) : bool :=
  match v with
  | None => true
  | Some k => bool_decide (k ∈ keys)
  end.

(** [username text UNIQUE]: NULLs never collide. *)
Definition usernames_unique (rows : list profiles.row) : bool :=
  bool_decide (NoDup (omap profiles.username rows)).

(** ** Row-level security *)

Inductive command : Set := SELECT | INSERT | UPDATE | DELETE.

Global Instance command_eq_dec : EqDecision command.
Proof. solve_decision. Defined.

(** [CREATE POLICY name ON table FOR command USING (...) WITH CHECK (...)];
    the expressions are closed over the acting identity and the tables
    their sub-queries read. *)
Record policy (R : Type) : Type := mk_policy {
  pol_name : string;
  pol_for : command;
  pol_using : option (R → sql_bool);
  pol_with_check : option (R → sql_bool)
}.
Arguments mk_policy {R}.
Arguments pol_name {R}.
Arguments pol_for {R}.
Arguments pol_using {R}.
Arguments pol_with_check {R}.

Section row_level_security.
Context {R : Type}.

Definition applicable (c : command) (ps : list (policy R)) : list (policy R) :=
  List.filter (λ p, bool_decide (pol_for p = c)) ps.

Definition passes_using (p : policy R) (r : R) : bool :=
  match pol_using p with
  | Some e => sql_true (e r)
  | None => true
  end.

(** A policy with [USING] only applies it to the new row as well. *)
Definition passes_check (p : policy R) (r : R) : bool :=
  match pol_with_check p with
  | Some e => sql_true (e r)
  | None => passes_using p r
  end.

(** With row-level security enabled, the policies of a command are
    combined with OR; a command with no policy is denied. *)
Definition rls_using (c : command) (ps : list (policy R)) (r : R) : bool :=
  existsb (λ p, passes_using p r) (applicable c ps).

Definition rls_check (c : command) (ps : list (policy R)) (r : R) : bool :=
  existsb (λ p, passes_check p r) (applicable c ps).

(** [UPDATE]: the rows selected by [WHERE] that pass [USING] are
    replaced; the others stay; one failing replacement fails the
    statement. *)
Fixpoint update_rows (sel : R → bool) (upd : R → sql_result R)
    (rows : list R) : sql_result (list R) :=
  match rows with
  | [] => inr []
  | r :: rest =>
      if sel r
      then r' ← upd r; rest' ← update_rows sel upd rest; mret (r' :: rest')
      else rest' ← update_rows sel upd rest; mret (r :: rest')
  end.
End row_level_security.

(** The acting identity: [auth.uid()], NULL for an anonymous request. *)
Definition identity : Set := option uuid.

(** *** Profiles policies *)

Definition profiles_policies (auth_uid : identity) : list (policy profiles.row) :=
  [ mk_policy "Public profiles are viewable by everyone" SELECT
      (Some (λ _, Some true)) None;
    mk_policy "Users can update own profile" UPDATE
      (Some (λ r, sql_eq auth_uid (Some (profiles.id r)))) None ].

Definition select_profiles (auth_uid : identity) (db : database) : list profiles.row :=
  List.filter (rls_using SELECT (profiles_policies auth_uid)) (tbl_profiles db).

(** *** Events policies *)

(** [EXISTS (SELECT 1 FROM profiles WHERE profiles.id = auth.uid()
    AND profiles.is_admin = true)] *)
Definition exists_admin_profile (auth_uid : identity) (db : database) : sql_bool :=
  Some (existsb
          (λ p, sql_true (sql_and (sql_eq (Some (profiles.id p)) auth_uid)
                                  (sql_eq (profiles.is_admin p) (Some true))))
          (select_profiles auth_uid db)).

Definition events_policies (auth_uid : identity) (db : database)
    : list (policy events.row) :=
  [ mk_policy "Events are viewable by everyone" SELECT
      (Some (λ _, Some true)) None;
    mk_policy "Admins can insert events" INSERT
      None (Some (λ _, exists_admin_profile auth_uid db));
    mk_policy "Admins can update events" UPDATE
      (Some (λ _, exists_admin_profile auth_uid db)) None ].

(** The identity has a profile whose admin flag is set. *)
Definition is_admin_identity (auth_uid : identity) (db : database) : Prop :=
  ∃ p, p ∈ tbl_profiles db ∧ auth_uid = Some (profiles.id p)
       ∧ profiles.is_admin p = Some true.

(** *** Bookings policies *)

Definition bookings_policies (auth_uid : identity) : list (policy bookings.row) :=
  [ mk_policy "Users can view own bookings" SELECT
      (Some (λ r, sql_eq auth_uid (bookings.user_id r))) None;
    mk_policy "Users can insert own bookings" INSERT
      None (Some (λ r, sql_eq auth_uid (bookings.user_id r)));
    mk_policy "Users can update own bookings" UPDATE
      (Some (λ r, sql_eq auth_uid (bookings.user_id r))) None ].

(** ** Statements

    The checks of a statement are made in one fixed order; the order only
    decides which error a statement failing several of them reports.
    [fresh] is the value [gen_random_uuid()] draws and [now] the value of
    [now()] for the statement. *)

Definition select_events (auth_uid : identity) (db : database) : list events.row :=
  List.filter (rls_using SELECT (events_policies auth_uid db)) (tbl_events db).

Definition select_bookings (auth_uid : identity) (db : database) : list bookings.row :=
  List.filter (rls_using SELECT (bookings_policies auth_uid)) (tbl_bookings db).

(** The table constraints of [events] on a typed row. *)
Definition events_constraints (db : database) (r : events.row) : sql_result unit :=
  require (references (events.created_by r) (profile_ids db)) foreign_key_violation.

(** [INSERT INTO events] by the owner of the table (the migration's seed
    rows): no policy applies. *)
Definition insert_events_owner (fresh : uuid) (now : timestamptz)
    (v : events.values) (db : database) : sql_result database :=
  k ← not_null (col_or (Some fresh) (events.v_id v));
  r ← events.typed k (events.defaults now v);
  _ ← require (key_free k (event_ids db)) unique_violation;
  _ ← events_constraints db r;
  mret (set_events db (tbl_events db ++ [r])).

(** [INSERT INTO events] under row-level security. *)
Definition insert_events (auth_uid : identity) (fresh : uuid) (now : timestamptz)
    (v : events.values) (db : database) : sql_result database :=
  k ← not_null (col_or (Some fresh) (events.v_id v));
  r ← events.typed k (events.defaults now v);
  _ ← require (rls_check INSERT (events_policies auth_uid db) r)
        row_level_security_violation;
  _ ← require (key_free k (event_ids db)) unique_violation;
  _ ← events_constraints db r;
  mret (set_events db (tbl_events db ++ [r])).

(** [UPDATE events SET ... WHERE ...] under row-level security, for
    assignments to the non-key columns. *)
Definition update_events (auth_uid : identity) (where_ : events.row → bool)
    (set : events.row → events.tuple) (db : database) : sql_result database :=
  let ps := events_policies auth_uid db in
  rows ← update_rows (λ r, where_ r && rls_using UPDATE ps r)
           (λ r, r' ← events.typed (events.id r) (set r);
                 _ ← require (rls_check UPDATE ps r') row_level_security_violation;
                 _ ← events_constraints db r';
                 mret r')
           (tbl_events db);
  mret (set_events db rows).

Definition bookings_constraints (db : database) (r : bookings.row) : sql_result unit :=
  _ ← require (references (bookings.event_id r) (event_ids db)) foreign_key_violation;
  require (references (bookings.user_id r) (profile_ids db)) foreign_key_violation.

(** [INSERT INTO bookings] under row-level security. *)
Definition insert_bookings (auth_uid : identity) (fresh : uuid) (now : timestamptz)
    (v : bookings.values) (db : database) : sql_result database :=
  st ← bookings.status_in (bookings.v_status v);
  k ← not_null (col_or (Some fresh) (bookings.v_id v));
  let r := bookings.mk k (col_or None (bookings.v_event_id v))
             (col_or None (bookings.v_user_id v)) st
             (col_or None (bookings.v_preferences v))
             (col_or (Some now) (bookings.v_created_at v))
             (col_or (Some now) (bookings.v_updated_at v)) in
  _ ← require (rls_check INSERT (bookings_policies auth_uid) r)
        row_level_security_violation;
  _ ← require (key_free k (booking_ids db)) unique_violation;
  _ ← bookings_constraints db r;
  mret (set_bookings db (tbl_bookings db ++ [r])).

(** [UPDATE bookings SET ... WHERE ...] under row-level security. *)
Definition update_bookings (auth_uid : identity) (where_ : bookings.row → bool)
    (set : bookings.row → bookings.tuple) (db : database) : sql_result database :=
  let ps := bookings_policies auth_uid in
  rows ← update_rows (λ r, where_ r && rls_using UPDATE ps r)
           (λ r, let r' := bookings.with_key (bookings.id r) (set r) in
                 _ ← require (rls_check UPDATE ps r') row_level_security_violation;
                 _ ← bookings_constraints db r';
                 mret r')
           (tbl_bookings db);
  mret (set_bookings db rows).

(** [UPDATE profiles SET ... WHERE ...] under row-level security. *)
Definition update_profiles (auth_uid : identity) (where_ : profiles.row → bool)
    (set : profiles.row → profiles.tuple) (db : database) : sql_result database :=
  let ps := profiles_policies auth_uid in
  rows ← update_rows (λ r, where_ r && rls_using UPDATE ps r)
           (λ r, let r' := profiles.with_key (profiles.id r) (set r) in
                 _ ← require (rls_check UPDATE ps r') row_level_security_violation;
                 mret r')
           (tbl_profiles db);
  _ ← require (usernames_unique rows) unique_violation;
  mret (set_profiles db rows).

(** [handle_new_user], fired [AFTER INSERT ON auth.users]: as a
    [security definer] function it inserts the profile whatever the
    policies say.
    [INSERT INTO public.profiles (id, full_name, avatar_url) VALUES (...)] *)
Definition handle_new_user (new_id : uuid) (meta_full_name meta_avatar_url : option string)
    (now : timestamptz) (db : database) : sql_result database :=
  _ ← require (key_free new_id (profile_ids db)) unique_violation;
  mret (set_profiles db
          (tbl_profiles db ++
             [profiles.mk new_id None meta_full_name meta_avatar_url
                (Some false) (Some now) (Some now)])).

(** A new identity: the row of [auth.users] and, by the trigger, its
    profile. *)
Definition on_auth_user_created (new_id : uuid)
    (meta_full_name meta_avatar_url : option string)
    (now : timestamptz) (db : database) : sql_result database :=
  _ ← require (key_free new_id (auth_users db)) unique_violation;
  handle_new_user new_id meta_full_name meta_avatar_url now
    (mk_database (auth_users db ++ [new_id]) (tbl_profiles db)
       (tbl_events db) (tbl_bookings db)).

(** ** The seed rows of the migration *)

Definition seed_values (title description : string) (date : sql_date)
    (time : sql_time) (location image_url : string) (price capacity : Z)
    (category : string) : events.values :=
  events.mk_values DEFAULT (VALUE (Some title)) (VALUE (Some description))
    (VALUE (Some date)) (VALUE (Some time)) (VALUE (Some location))
    (VALUE (Some image_url)) (VALUE (Some price)) (VALUE (Some capacity))
    (VALUE (Some category)) DEFAULT DEFAULT DEFAULT.

(** [INSERT INTO events (title, description, date, time, location,
    image_url, price, capacity, category) VALUES ...]; prices in
    hundredths. *)
Definition sample_data : list events.values :=
  [ seed_values "Tech Conference 2024"
      "Join us for the biggest tech conference of the year featuring industry leaders and innovative workshops."
      (mk_date 2024 4 15) "09:00" "Silicon Valley Convention Center"
      "https://images.unsplash.com/photo-1505373877841-8d25f7d46678?ixlib=rb-1.2.1&auto=format&fit=crop&w=1600&q=80"
      29999 500 "Technology";
    seed_values "Music Festival"
      "Experience an unforgettable weekend of live music performances from top artists across multiple genres."
      (mk_date 2024 5 20) "16:00" "Central Park"
      "https://images.unsplash.com/photo-1459749411175-04bf5292ceea?ixlib=rb-1.2.1&auto=format&fit=crop&w=1600&q=80"
      14999 1000 "Music";
    seed_values "Food & Wine Festival"
      "Savor exquisite cuisines and premium wines from around the world in this gastronomic celebration."
      (mk_date 2024 6 10) "14:00" "Downtown Food District"
      "https://images.unsplash.com/photo-1555244162-803834f70033?ixlib=rb-1.2.1&auto=format&fit=crop&w=1600&q=80"
      8999 300 "Food & Drink";
    seed_values "Art Exhibition"
      "Discover contemporary masterpieces from emerging artists around the globe."
      (mk_date 2024 7 1) "10:00" "Modern Art Gallery"
      "https://images.unsplash.com/photo-1531243269054-5ebf6f34081e?ixlib=rb-1.2.1&auto=format&fit=crop&w=1600&q=80"
      2500 200 "Art";
    seed_values "Startup Pitch Night"
      "Watch innovative startups pitch their ideas to top investors."
      (mk_date 2024 7 15) "18:00" "Innovation Hub"
      "https://images.unsplash.com/photo-1559136555-9303baea8ebd?ixlib=rb-1.2.1&auto=format&fit=crop&w=1600&q=80"
      5000 150 "Business";
    seed_values "Wellness Retreat"
      "A day of mindfulness, yoga, and healthy living workshops."
      (mk_date 2024 8 1) "08:00" "Serenity Gardens"
      "https://images.unsplash.com/photo-1544367567-0f2fcb009e0b?ixlib=rb-1.2.1&auto=format&fit=crop&w=1600&q=80"
      19999 100 "Wellness";
    seed_values "Comedy Night"
      "Laugh out loud with top stand-up comedians."
      (mk_date 2024 8 15) "20:00" "Laugh Factory"
      "https://images.unsplash.com/photo-1527224857830-43a7acc85260?ixlib=rb-1.2.1&auto=format&fit=crop&w=1600&q=80"
      4500 250 "Entertainment" ].

(** The rows of one [INSERT ... VALUES] are inserted in order, the
    [n]-th of them with the [n]-th draw of [gen_random_uuid()]. *)
Fixpoint insert_all_events_owner (gen : nat → uuid) (n : nat) (now : timestamptz)
    (vs : list events.values) (db : database) : sql_result database :=
  match vs with
  | [] => inr db
  | v :: rest =>
      db' ← insert_events_owner (gen n) now v db;
      insert_all_events_owner gen (S n) now rest db'
  end.

(** The migration, run on an empty database. *)
Definition migration (gen : nat → uuid) (now : timestamptz) : sql_result database :=
  insert_all_events_owner gen 0%nat now sample_data empty_database.

(** ** The client *)

(** [types/index.ts]: the [Event] the views render.  [description] and
    [imageUrl] carry what the backend returned for nullable columns;
    [price] is in hundredths. *)
Module Event.
Record t : Set := mk {
  id : string;
  title : string;
  description : option string;
  date : string;
  time : string;
  location : string;
  imageUrl : option string;
  price : Z;
  capacity : Z;
  registeredCount : Z
}.
End Event.

(** [types/index.ts]: [Booking] and the type of its [status], the union
    ['pending' | 'confirmed' | 'declined']. *)
Module Booking.
Inductive Status : Set := pending | confirmed | declined.

Definition status_label (s : Status) : string :=
  match s with
  | pending => "pending"
  | confirmed => "confirmed"
  | declined => "declined"
  end.

Definition status_values : list Status := [pending; confirmed; declined].

Record t : Set := mk {
  id : string;
  eventId : string;
  userId : string;
  status : Status;
  createdAt : string
}.
End Booking.

(** Modelled from the spec: the signed-in identity that [useAuth] provides
    ([contexts/AuthContext] is not among the sources); the components read
    its [id] and [email]. *)
Record auth_user : Set := mk_auth_user { auth_user_id : uuid; auth_user_email : string }.

(** Modelled from the spec: requests of a signed-in session reach the
    policies with [auth.uid()] equal to the user's id, those of a signed-out
    one with NULL. *)
Definition auth_uid (user : option auth_user) : identity := auth_user_id <$> user.

(** The backend a request reaches: the database, and whether the request
    gets through at all. *)
Record backend : Type := mk_backend { be_db : database; be_online : bool }.

(** What the client library hands back: [{ data, error }]. *)
Inductive client_error : Set :=
| fetch_failed
| range_not_satisfiable
| postgres (e : sql_error).

Record response (A : Type) : Type := mk_response {
  data : option A;
  error : option client_error
}.
Arguments mk_response {A}.
Arguments data {A}.
Arguments error {A}.

Definition ITEMS_PER_PAGE : Z := 9.

Definition events_by_date (r1 r2 : events.row) : Prop :=
  date_le (events.date r1) (events.date r2).

Global Instance events_by_date_dec r1 r2 : Decision (events_by_date r1 r2).
Proof. unfold events_by_date. apply _. Defined.

(** [supabase.from('events').select('*', { count: 'exact', head: true })]:
    the number of rows the identity may see; [count] is null when the
    request fails. *)
Definition count_events (be : backend) (user : option auth_user) : option Z :=
  if be_online be
  then Some (Z.of_nat (length (select_events (auth_uid user) (be_db be))))
  else None.

(** [supabase.from('events').select(...).range(from, to)
      .order('date', { ascending: true })]:
    the visible rows in ascending date order, those at offsets [from] to
    [to], both included.  A negative offset is refused. *)
Definition events_range_by_date (be : backend) (user : option auth_user)
    (from to : Z) : response (list events.row) :=
  if be_online be
  then
    if bool_decide (from < 0) then mk_response None (Some range_not_satisfiable)
    else mk_response
           (Some (take (Z.to_nat (to - from + 1))
                    (drop (Z.to_nat from)
                       (merge_sort events_by_date
                          (select_events (auth_uid user) (be_db be))))))
           None
  else mk_response None (Some fetch_failed).

(** [supabase.from('bookings').insert([row])]: [{ error }]. *)
Definition bookings_insert (be : backend) (user : option auth_user)
    (fresh : uuid) (now : timestamptz) (v : bookings.values)
    : option client_error * backend :=
  if be_online be
  then match insert_bookings (auth_uid user) fresh now v (be_db be) with
       | inr db' => (None, mk_backend db' (be_online be))
       | inl e => (Some (postgres e), be)
       end
  else (Some fetch_failed, be).

(** [Math.ceil(a / b)] on integers [a] and [b > 0]. *)
Definition Math_ceil_div (a b : Z) : Z := - ((- a) / b).

Section App.
(** [new Date(d).toLocaleDateString()] depends on the locale of the
    browser. *)
Variable toLocaleDateString : sql_date → string.

(** The state of [App]: its [useState] cells, the [user] of [useAuth],
    and the notifications raised so far. *)
Record App : Type := mk_App {
  events_ : list Event.t;
  isModalOpen : bool;
  isAuthModalOpen : bool;
  selectedEventId : option string;
  searchTerm : string;
  currentPage : Z;
  totalCount : Z;
  isLoading : bool;
  user : option auth_user;
  toasts : list string
}.

Definition initial_App (user : option auth_user) : App :=
  mk_App [] false false None "" 1 0 true user [].

Definition setEvents (evs : list Event.t) (s : App) : App :=
  mk_App evs (isModalOpen s) (isAuthModalOpen s) (selectedEventId s)
    (searchTerm s) (currentPage s) (totalCount s) (isLoading s) (user s) (toasts s).
Definition setIsModalOpen (b : bool) (s : App) : App :=
  mk_App (events_ s) b (isAuthModalOpen s) (selectedEventId s)
    (searchTerm s) (currentPage s) (totalCount s) (isLoading s) (user s) (toasts s).
Definition setIsAuthModalOpen (b : bool) (s : App) : App :=
  mk_App (events_ s) (isModalOpen s) b (selectedEventId s)
    (searchTerm s) (currentPage s) (totalCount s) (isLoading s) (user s) (toasts s).
Definition setSelectedEventId (i : option string) (s : App) : App :=
  mk_App (events_ s) (isModalOpen s) (isAuthModalOpen s) i
    (searchTerm s) (currentPage s) (totalCount s) (isLoading s) (user s) (toasts s).
Definition setCurrentPage (p : Z) (s : App) : App :=
  mk_App (events_ s) (isModalOpen s) (isAuthModalOpen s) (selectedEventId s)
    (searchTerm s) p (totalCount s) (isLoading s) (user s) (toasts s).
Definition setTotalCount (n : Z) (s : App) : App :=
  mk_App (events_ s) (isModalOpen s) (isAuthModalOpen s) (selectedEventId s)
    (searchTerm s) (currentPage s) n (isLoading s) (user s) (toasts s).
Definition setIsLoading (b : bool) (s : App) : App :=
  mk_App (events_ s) (isModalOpen s) (isAuthModalOpen s) (selectedEventId s)
    (searchTerm s) (currentPage s) (totalCount s) b (user s) (toasts s).
Definition toast_error (msg : string) (s : App) : App :=
  mk_App (events_ s) (isModalOpen s) (isAuthModalOpen s) (selectedEventId s)
    (searchTerm s) (currentPage s) (totalCount s) (isLoading s) (user s)
    (toasts s ++ [msg]).

(** The body of [(data || []).map(event => ...)]. *)
Definition transform (event : events.row) : Event.t :=
  Event.mk (events.id event) (events.title event) (events.description event)
    (toLocaleDateString (events.date event)) (events.time event)
    (events.location event) (events.image_url event) (events.price event)
    (events.capacity event) 0.

Definition fetchEvents (be : backend) (s : App) : App :=
  let s := setIsLoading true s in
  (* First, get the total count *)
  let count := count_events be (user s) in
  let s := setTotalCount (default 0 count) s in
  (* Then fetch the paginated data *)
  let r := events_range_by_date be (user s)
             ((currentPage s - 1) * ITEMS_PER_PAGE)
             (currentPage s * ITEMS_PER_PAGE - 1) in
  let s :=
    match error r with
    | Some _ => toast_error "Failed to load events" s
    | None => setEvents (transform <$> default [] (data r)) s
    end in
  setIsLoading false s.

Definition selectedEvent (s : App) : option Event.t :=
  match selectedEventId s with
  | Some i => List.find (λ event, bool_decide (Event.id event = i)) (events_ s)
  | None => None
  end.

Definition handleBookEvent (eventId : string) (s : App) : App :=
  match user s with
  | None => setIsAuthModalOpen true s
  | Some _ => setIsModalOpen true (setSelectedEventId (Some eventId) s)
  end.

Definition totalPages (s : App) : Z := Math_ceil_div (totalCount s) ITEMS_PER_PAGE.

(** The pagination buttons. *)
Definition previousPage (s : App) : App :=
  setCurrentPage (Z.max 1 (currentPage s - 1)) s.
Definition nextPage (s : App) : App :=
  setCurrentPage (Z.min (totalPages s) (currentPage s + 1)) s.
End App.

(** How an awaited promise settles. *)
Inductive settled : Set :=
| resolved
| rejected (e : client_error).

(** [BookingModal]'s [BookingFormData]. *)
Record BookingFormData : Set := mk_BookingFormData {
  name : string;
  email : string;
  preferences : string
}.

(** [!s] on a [string | null]: null and the empty string are falsy. *)
Definition js_truthy (s : option string) : bool :=
  match s with
  | Some s => negb (bool_decide (s = ""))
  | None => false
  end.

(** The object [handleBookingSubmit] passes to [insert]: four keys, the
    other columns take their defaults. *)
Definition booking_payload (selectedEventId user_id : string)
    (formData : BookingFormData) : bookings.values :=
  bookings.mk_values DEFAULT
    (VALUE (Some selectedEventId))
    (VALUE (Some user_id))
    (VALUE (Some "pending"))
    (VALUE (Some (preferences formData)))
    DEFAULT DEFAULT.

Definition handleBookingSubmit (fresh : uuid) (now : timestamptz)
    (formData : BookingFormData) (w : backend * App) : settled * (backend * App) :=
  let '(be, s) := w in
  match user s, selectedEventId s with
  | Some u, Some eventId =>
      if js_truthy (Some eventId)
      then
        let '(error, be') :=
          bookings_insert be (user s) fresh now
            (booking_payload eventId (auth_user_id u) formData) in
        match error with
        | Some e => (rejected e, (be', toast_error "Failed to submit booking" s))
        | None => (resolved, (be', s))
        end
      else (resolved, w)
  | _, _ => (resolved, w)
  end.

(** *** [EventCard] *)

Record EventCard_view : Set := mk_EventCard_view {
  card_image : option string;
  card_heading : string;
  card_description : option string;
  card_location : string;
  button_disabled : bool;
  button_label : string;
  (** the id the click hands to [onBook] *)
  button_books : string
}.

Definition EventCard (event : Event.t) : EventCard_view :=
  mk_EventCard_view (Event.imageUrl event) (Event.title event)
    (Event.description event) (Event.location event)
    (Event.registeredCount event >=? Event.capacity event)
    (if Event.registeredCount event >=? Event.capacity event
     then "Sold Out" else "Book Now")
    (Event.id event).

(** *** [BookingModal] *)

Record BookingModal : Set := mk_BookingModal {
  formData : BookingFormData;
  isSubmitting : bool;
  isSuccess : bool
}.

Definition empty_form : BookingFormData := mk_BookingFormData "" "" "".
Definition initial_BookingModal : BookingModal := mk_BookingModal empty_form false false.

Definition setFormData (f : BookingFormData) (m : BookingModal) : BookingModal :=
  mk_BookingModal f (isSubmitting m) (isSuccess m).
Definition setIsSubmitting (b : bool) (m : BookingModal) : BookingModal :=
  mk_BookingModal (formData m) b (isSuccess m).
Definition setIsSuccess (b : bool) (m : BookingModal) : BookingModal :=
  mk_BookingModal (formData m) (isSubmitting m) b.

(** What [setTimeout] has scheduled. *)
Inductive callback : Set := close_after_success.
Record timer : Set := mk_timer { delay_ms : Z; fires : callback }.

(** [handleSubmit], over whatever [onSubmit] acts on. *)
Definition handleSubmit {W : Type} (onSubmit : BookingFormData → W → settled * W)
    (m : BookingModal) (w : W) : BookingModal * list timer * W :=
  let m := setIsSubmitting true m in
  let '(outcome, w) := onSubmit (formData m) w in
  let '(m, timers) :=
    match outcome with
    | resolved => (setIsSuccess true m, [mk_timer 2000 close_after_success])
    | rejected _ => (m, [])   (* Error handling is managed by the parent component *)
    end in
  (setIsSubmitting false m, timers, w).

(** The body of the timeout: [setIsSuccess(false); onClose();
    setFormData({ name: '', email: '', preferences: '' })], where [onClose]
    is [App]'s [() => setIsModalOpen(false)]. *)
Definition run_callback (c : callback) (m : BookingModal) (s : App) : BookingModal * App :=
  match c with
  | close_after_success =>
      (setFormData empty_form (setIsSuccess false m), setIsModalOpen false s)
  end.

Inductive BookingModal_view : Set :=
| view_null
| view_success
| view_form (name_value email_value preferences_value : string)
            (submit_disabled : bool) (submit_label : string).

Definition render_BookingModal (isOpen : bool) (m : BookingModal) : BookingModal_view :=
  if negb isOpen then view_null
  else if isSuccess m then view_success
  else view_form (name (formData m)) (email (formData m)) (preferences (formData m))
         (isSubmitting m)
         (if isSubmitting m then "Processing..." else "Confirm Booking").

(** The page: [App] renders [BookingModal] with [isOpen = isModalOpen] and
    [onSubmit = handleBookingSubmit]. *)
Record page : Type := mk_page {
  page_backend : backend;
  page_app : App;
  page_modal : BookingModal;
  page_timers : list timer
}.

Definition submit_booking_form (fresh : uuid) (now : timestamptz) (p : page) : page :=
  let '(m, timers, (be, s)) :=
    handleSubmit (handleBookingSubmit fresh now) (page_modal p)
      (page_backend p, page_app p) in
  mk_page be s m (page_timers p ++ timers).

Definition page_view (p : page) : BookingModal_view :=
  render_BookingModal (isModalOpen (page_app p)) (page_modal p).

(** The row a submission inserts. *)
Definition submitted_booking (fresh : uuid) (now : timestamptz) (e : Event.t)
    (u : auth_user) (form : BookingFormData) : bookings.row :=
  bookings.mk fresh (Some (Event.id e)) (Some (auth_user_id u)) (Some pending)
    (Some (preferences form)) (Some now) (Some now).

(** ** The states the statements reach

    A step is one statement that the policies let through, or a new
    identity; a reachable state is what some sequence of steps makes of
    the migrated database. *)
Inductive step : database → database → Prop :=
| step_auth_user_created new_id full_name avatar_url now db db' :
    on_auth_user_created new_id full_name avatar_url now db = inr db' →
    step db db'
| step_update_profiles auth_uid where_ set db db' :
    update_profiles auth_uid where_ set db = inr db' → step db db'
| step_insert_events auth_uid fresh now v db db' :
    insert_events auth_uid fresh now v db = inr db' → step db db'
| step_update_events auth_uid where_ set db db' :
    update_events auth_uid where_ set db = inr db' → step db db'
| step_insert_bookings auth_uid fresh now v db db' :
    insert_bookings auth_uid fresh now v db = inr db' → step db db'
| step_update_bookings auth_uid where_ set db db' :
    update_bookings auth_uid where_ set db = inr db' → step db db'.

Inductive reachable : database → Prop :=
| reachable_migration gen now db :
    migration gen now = inr db → reachable db
| reachable_step db db' :
    reachable db → step db db' → reachable db'.

(** Referential integrity of the bookings table. *)
Definition bookings_referenced (db : database) : Prop :=
  Forall (λ b, references (bookings.event_id b) (event_ids db) = true
               ∧ references (bookings.user_id b) (profile_ids db) = true)
    (tbl_bookings db).

(** The range of the two numeric columns of [events]. *)
Definition events_in_range (r : events.row) : Prop :=
  -2147483648 ≤ events.capacity r ≤ 2147483647
  ∧ -9999999999 ≤ events.price r ≤ 9999999999.

(** ** Some assignments *)

(** [UPDATE bookings SET status = s]: the other columns keep their
    values. *)
Definition set_status (s : option booking_status) (b : bookings.row) : bookings.tuple :=
  bookings.mk_tuple (bookings.event_id b) (bookings.user_id b) s
    (bookings.preferences b) (bookings.created_at b) (bookings.updated_at b).

Definition with_status (s : option booking_status) (b : bookings.row) : bookings.row :=
  bookings.with_key (bookings.id b) (set_status s b).

(** [UPDATE profiles SET is_admin = true]. *)
Definition set_is_admin (a : option bool) (p : profiles.row) : profiles.tuple :=
  profiles.mk_tuple (profiles.username p) (profiles.full_name p)
    (profiles.avatar_url p) a (profiles.created_at p) (profiles.updated_at p).

(** ** A sample history

    The migration, then two identities; one of them sets the admin flag
    of her own profile and inserts an event, the other books and changes
    the status of the booking. *)

Definition or_else (d : database) (r : sql_result database) : database :=
  match r with
  | inr db => db
  | inl _ => d
  end.

Definition sample_gen (n : nat) : uuid :=
  String.append "event-" (String (Ascii.ascii_of_nat (48 + n)) "").

Definition db_migrated : database :=
  or_else empty_database (migration sample_gen 0).

Definition db_alice : database :=
  or_else empty_database
    (on_auth_user_created "alice" (Some "Alice") None 1 db_migrated).

Definition db_alice_bob : database :=
  or_else empty_database
    (on_auth_user_created "bob" (Some "Bob") None 2 db_alice).

Definition db_alice_admin : database :=
  or_else empty_database
    (update_profiles (Some "alice") (λ p, bool_decide (profiles.id p = "alice"))
       (set_is_admin (Some true)) db_alice_bob).

Definition negative_event : events.values :=
  events.mk_values DEFAULT (VALUE (Some "Refund")) DEFAULT
    (VALUE (Some (mk_date 2024 1 1))) (VALUE (Some "12:00"))
    (VALUE (Some "Nowhere")) DEFAULT (VALUE (Some (-100))) (VALUE (Some (-5)))
    DEFAULT DEFAULT DEFAULT DEFAULT.

Definition db_negative : database :=
  or_else empty_database
    (insert_events (Some "alice") "event-x" 3 negative_event db_alice_admin).

Definition bob : auth_user := mk_auth_user "bob" "bob@example.org".

Definition db_booked : database :=
  or_else empty_database
    (insert_bookings (Some "bob") "booking-1" 4
       (booking_payload "event-0" "bob" (mk_BookingFormData "Bob" "bob@example.org" "vegan"))
       db_alice_bob).

Definition db_confirmed : database :=
  or_else empty_database
    (update_bookings (Some "bob") (λ b, bool_decide (bookings.id b = "booking-1"))
       (set_status (Some confirmed)) db_booked).

Definition db_pending_again : database :=
  or_else empty_database
    (update_bookings (Some "bob") (λ b, bool_decide (bookings.id b = "booking-1"))
       (set_status (Some pending)) db_confirmed).

(** Bob's page after the first fetch, with the first event chosen. *)
Definition bob_app : App :=
  handleBookEvent "event-0"
    (fetchEvents (λ _, "4/15/2024") (mk_backend db_alice_bob true)
       (initial_App (Some bob))).

Definition bob_form : BookingFormData :=
  mk_BookingFormData "Bob" "bob@example.org" "vegan".

Definition bob_page (be : backend) : page :=
  mk_page be bob_app (setFormData bob_form initial_BookingModal) [].

(** The event Bob selected. *)
Definition bob_event : Event.t :=
  default (Event.mk "" "" None "" "" "" None 0 0 0) (selectedEvent bob_app).

(** Bob's booking in a database where Alice is an admin. *)
Definition db_admin_booked : database :=
  or_else empty_database
    (insert_bookings (Some "bob") "booking-1" 4
       (booking_payload "event-0" "bob" bob_form) db_alice_admin).

(** ** The statements no policy grants *)



(** Whether a reference points into the keys of the rows a [DELETE]
    removes. *)
Definition refers_to (v : option uuid) (gone : list uuid) : bool :=
  match v with
  | None => false
  | Some k => bool_decide (k ∈ gone)
  end.

(** [DELETE FROM bookings WHERE ...] under row-level security. *)
Definition delete_bookings (auth_uid : identity) (where_ : bookings.row → bool)
    (db : database) : sql_result database :=
  let ps := bookings_policies auth_uid in
  mret (set_bookings db
          (List.filter (λ r, negb (where_ r && rls_using DELETE ps r))
             (tbl_bookings db))).

(** [DELETE FROM events WHERE ...] under row-level security; the
    bookings of a deleted event go with it ([ON DELETE CASCADE]). *)
Definition delete_events (auth_uid : identity) (where_ : events.row → bool)
    (db : database) : sql_result database :=
  let ps := events_policies auth_uid db in
  let gone := events.id <$> List.filter (λ r, where_ r && rls_using DELETE ps r)
                              (tbl_events db) in
  mret (mk_database (auth_users db) (tbl_profiles db)
          (List.filter (λ r, negb (where_ r && rls_using DELETE ps r)) (tbl_events db))
          (List.filter (λ b, negb (refers_to (bookings.event_id b) gone))
             (tbl_bookings db))).

(** [DELETE FROM profiles WHERE ...] under row-level security; an event
    created by a deleted profile stops the statement, the bookings of a
    deleted profile go with it. *)
Definition delete_profiles (auth_uid : identity) (where_ : profiles.row → bool)
    (db : database) : sql_result database :=
  let ps := profiles_policies auth_uid in
  let gone := profiles.id <$> List.filter (λ r, where_ r && rls_using DELETE ps r)
                                (tbl_profiles db) in
  _ ← require (forallb (λ e, negb (refers_to (events.created_by e) gone))
                 (tbl_events db)) foreign_key_violation;
  mret (mk_database (auth_users db)
          (List.filter (λ r, negb (where_ r && rls_using DELETE ps r)) (tbl_profiles db))
          (tbl_events db)
          (List.filter (λ b, negb (refers_to (bookings.user_id b) gone))
             (tbl_bookings db))).

(** ** What the constraints keep

    Keys are unique, every profile belongs to an identity, usernames do
    not collide, and references point at rows. *)
Definition consistent (db : database) : Prop :=
  profile_ids db = auth_users db
  ∧ NoDup (profile_ids db) ∧ NoDup (event_ids db) ∧ NoDup (booking_ids db)
  ∧ usernames_unique (tbl_profiles db) = true
  ∧ Forall (λ e, references (events.created_by e) (profile_ids db) = true)
      (tbl_events db)
  ∧ bookings_referenced db.

(** ** More of the page *)

(** The pagination controls: the previous and next buttons with their
    [disabled] attributes, and one button per page,
    [Array.from({ length: totalPages }, (_, i) => i + 1)].  A click on a
    disabled button does nothing. *)
Definition previous_disabled (s : App) : bool := bool_decide (currentPage s = 1).
Definition next_disabled (s : App) : bool := bool_decide (currentPage s = totalPages s).
Definition page_buttons (s : App) : list Z := (λ i, i + 1) <$> seqZ 0 (totalPages s).

Definition click_previous (s : App) : App :=
  if previous_disabled s then s else previousPage s.
Definition click_next (s : App) : App :=
  if next_disabled s then s else nextPage s.

(** The click on the button of a card: [onBook(event.id)], with
    [onBook = handleBookEvent]. *)
Definition click_book (event : Event.t) (s : App) : App :=
  if button_disabled (EventCard event) then s
  else handleBookEvent (button_books (EventCard event)) s.

(** The oldest timer fires. *)
Definition fire_timer (p : page) : page :=
  match page_timers p with
  | [] => p
  | t :: rest =>
      let '(m, s) := run_callback (fires t) (page_modal p) (page_app p) in
      mk_page (page_backend p) s m rest
  end.

(** [String.prototype.includes]: [sub] occurs somewhere in [s]. *)
Fixpoint includes (s sub : string) : bool :=
  String.prefix sub s
  || match s with
     | EmptyString => false
     | String _ rest => includes rest sub
     end.

(** [Array.prototype.filter] with a test that may throw: the first
    element on which it throws ends the call ([None]). *)
Fixpoint filter_throwing {A} (test : A → option bool) (l : list A) : option (list A) :=
  match l with
  | [] => Some []
  | x :: rest =>
      b ← test x;
      kept ← filter_throwing test rest;
      Some (if b : bool then x :: kept else kept)
  end.

Section search.
(** [String.prototype.toLowerCase] follows the Unicode case mappings. *)
Variable toLowerCase : string → string.

(** The test of [filteredEvents]; [description] is null for an event
    whose column is NULL, and reading [toLowerCase] of null throws. *)
Definition search_test (searchTerm : string) (event : Event.t) : option bool :=
  if includes (toLowerCase (Event.title event)) (toLowerCase searchTerm)
  then Some true
  else
    d ← Event.description event;
    Some (includes (toLowerCase d) (toLowerCase searchTerm)).

Definition filteredEvents (s : App) : option (list Event.t) :=
  filter_throwing (search_test (searchTerm s)) (events_ s).
End search.

(** [EventCarousel]: the index of the slide shown, moved by the buttons
    and, every five seconds, by the timer (which runs [nextSlide]'s
    update too). *)
Module EventCarousel.
Section carousel.
Context {A : Type}.

Definition nextSlide (events : list A) (current : Z) : Z :=
  if bool_decide (current = Z.of_nat (length events) - 1) then 0 else current + 1.

Definition prevSlide (events : list A) (current : Z) : Z :=
  if bool_decide (current = 0) then Z.of_nat (length events) - 1 else current - 1.

(** The slide with [opacity-100] is the one whose index is
    [currentIndex]. *)
Definition shown (events : list A) (currentIndex : Z) : option A :=
  if bool_decide (0 ≤ currentIndex) then events !! Z.to_nat currentIndex else None.
End carousel.
End EventCarousel.

(** The page with the booking form filled in and no timer pending. *)
Definition form_page (be : backend) (s : App) (form : BookingFormData) : page :=
  mk_page be s (setFormData form initial_BookingModal) [].

(** An empty database, reachable by no migration, for the empty page. *)
Definition empty_backend : backend := mk_backend empty_database true.

(** * Properties *)

(** ** Statement outcomes *)

Lemma bind_inr {A B} (m : sql_result A) (f : A → sql_result B) (y : B) :
  m ≫= f = inr y ↔ ∃ x, m = inr x ∧ f x = inr y.
Proof.
  destruct m as [e|x]; unfold mbind, sql_result_bind; split.
  - discriminate.
  - intros (x & Hx & _). discriminate.
  - eauto.
  - intros (x' & Hx & Hf). congruence.
Qed.

Lemma bind_inr_l {A B} (m : sql_result A) (f : A → sql_result B) (x : A) :
  m = inr x → m ≫= f = f x.
Proof. intros ->. reflexivity. Qed.

Lemma require_inr (b : bool) (e : sql_error) (u : unit) :
  require b e = inr u ↔ b = true.
Proof. destruct b, u; unfold require; split; congruence. Qed.

Lemma require_true (b : bool) (e : sql_error) : b = true → require b e = inr tt.
Proof. intros ->. reflexivity. Qed.

Lemma not_null_inr {A} (v : option A) (x : A) : not_null v = inr x ↔ v = Some x.
Proof. destruct v; unfold not_null; split; congruence. Qed.

Lemma mret_inr {A} (x y : A) : (mret x : sql_result A) = inr y ↔ x = y.
Proof. unfold mret, sql_result_ret. split; congruence. Qed.

(** Takes a successful statement apart into the checks it passed. *)
Ltac inv_sql :=
  repeat match goal with
    | H : _ ≫= _ = inr _ |- _ =>
        apply (proj1 (bind_inr _ _ _)) in H; destruct H as (? & ? & H)
    | H : require _ _ = inr _ |- _ => apply (proj1 (require_inr _ _ _)) in H
    | H : not_null _ = inr _ |- _ => apply (proj1 (not_null_inr _ _)) in H
    | H : mret _ = inr _ |- _ => apply (proj1 (mret_inr _ _)) in H
    end.

Lemma filter_all {A} (f : A → bool) (l : list A) :
  (∀ x, f x = true) → List.filter f l = l.
Proof.
  intros Hf. induction l as [|x l IH]; simpl; [done|].
  by rewrite Hf, IH.
Qed.

Lemma filter_agree {A} (f g : A → bool) (l : list A) :
  (∀ x, f x = g x) → List.filter f l = List.filter g l.
Proof.
  intros Hfg. induction l as [|x l IH]; simpl; [done|].
  by rewrite Hfg, IH.
Qed.

Section update_rows_facts.
Context {R : Type} (sel : R → bool) (upd : R → sql_result R).

(** Row by row, an update that succeeded replaced the selected rows and
    kept the others, in place. *)
Lemma update_rows_Forall2 (rows rows' : list R) :
  update_rows sel upd rows = inr rows' →
  Forall2 (λ r r', (sel r = true ∧ upd r = inr r') ∨ (sel r = false ∧ r' = r))
    rows rows'.
Proof.
  revert rows'. induction rows as [|r rows IH]; intros rows' H; simpl in H.
  - injection H as <-. constructor.
  - destruct (sel r) eqn:Hsel; inv_sql; subst rows'.
    + constructor; [left; done | by apply IH].
    + constructor; [right; done | by apply IH].
Qed.

Lemma update_rows_none (rows : list R) :
  (∀ r, r ∈ rows → sel r = false) → update_rows sel upd rows = inr rows.
Proof.
  induction rows as [|r rows IH]; intros Hsel; simpl; [done|].
  rewrite (Hsel r) by left.
  rewrite IH; [done|]. intros r' Hr'. apply Hsel. by right.
Qed.

Lemma update_rows_all (g : R → R) (rows : list R) :
  (∀ r, r ∈ rows → sel r = true → upd r = inr (g r)) →
  update_rows sel upd rows = inr ((λ r, if sel r then g r else r) <$> rows).
Proof.
  induction rows as [|r rows IH]; intros Hupd; simpl; [done|].
  assert (Hrest : ∀ r', r' ∈ rows → sel r' = true → upd r' = inr (g r'))
    by (intros r' Hr'; apply Hupd; by right).
  specialize (IH Hrest).
  destruct (sel r) eqn:Hsel.
  - rewrite (bind_inr_l _ _ _ (Hupd r ltac:(left) Hsel)).
    by rewrite (bind_inr_l _ _ _ IH).
  - by rewrite (bind_inr_l _ _ _ IH).
Qed.
End update_rows_facts.

Lemma set_events_same (db : database) : set_events db (tbl_events db) = db.
Proof. by destruct db. Qed.

(** ** Who passes which policy *)

Lemma sql_true_Some (b : bool) : sql_true (Some b) = b.
Proof. by destruct b. Qed.

Lemma sql_eq_true {A} `{EqDecision A} (x y : option A) :
  sql_true (sql_eq x y) = true ↔ ∃ a, x = Some a ∧ y = Some a.
Proof.
  destruct x as [a|], y as [b|]; unfold sql_eq.
  - rewrite sql_true_Some, bool_decide_eq_true. split.
    + intros ->. eauto.
    + intros (c & Ha & Hb). congruence.
  - split; [discriminate | intros (c & _ & Hb); discriminate].
  - split; [discriminate | intros (c & Ha & _); discriminate].
  - split; [discriminate | intros (c & Ha & _); discriminate].
Qed.

Lemma sql_and_true (p q : sql_bool) :
  sql_true (sql_and p q) = true ↔ sql_true p = true ∧ sql_true q = true.
Proof. destruct p as [[]|], q as [[]|]; simpl; intuition congruence. Qed.

Lemma select_profiles_all (auth_uid : identity) (db : database) :
  select_profiles auth_uid db = tbl_profiles db.
Proof. unfold select_profiles. by apply filter_all. Qed.

Lemma select_events_all (auth_uid : identity) (db : database) :
  select_events auth_uid db = tbl_events db.
Proof. unfold select_events. by apply filter_all. Qed.

Lemma exists_admin_profile_true (auth_uid : identity) (db : database) :
  sql_true (exists_admin_profile auth_uid db) = true ↔ is_admin_identity auth_uid db.
Proof.
  unfold exists_admin_profile, is_admin_identity.
  rewrite sql_true_Some, select_profiles_all, existsb_exists.
  split.
  - intros (p & Hin & Hp). exists p.
    apply sql_and_true in Hp as [Hid Hadm].
    apply sql_eq_true in Hid as (a & Ha & ->).
    apply sql_eq_true in Hadm as (b & -> & Hb).
    split; [by apply list_elem_of_In|]. split; congruence.
  - intros (p & Hin & -> & Hadm). exists p.
    split; [by apply list_elem_of_In|].
    apply sql_and_true. split; apply sql_eq_true; eauto.
Qed.

Lemma events_insert_check (auth_uid : identity) (db : database) (r : events.row) :
  rls_check INSERT (events_policies auth_uid db) r
  = sql_true (exists_admin_profile auth_uid db).
Proof.
  transitivity (sql_true (exists_admin_profile auth_uid db) || false);
    [reflexivity | apply orb_false_r].
Qed.

Lemma events_update_using (auth_uid : identity) (db : database) (r : events.row) :
  rls_using UPDATE (events_policies auth_uid db) r
  = sql_true (exists_admin_profile auth_uid db).
Proof.
  transitivity (sql_true (exists_admin_profile auth_uid db) || false);
    [reflexivity | apply orb_false_r].
Qed.

Lemma bookings_select_using (auth_uid : identity) (r : bookings.row) :
  rls_using SELECT (bookings_policies auth_uid) r
  = sql_true (sql_eq auth_uid (bookings.user_id r)).
Proof.
  transitivity (sql_true (sql_eq auth_uid (bookings.user_id r)) || false);
    [reflexivity | apply orb_false_r].
Qed.

Lemma bookings_insert_check (auth_uid : identity) (r : bookings.row) :
  rls_check INSERT (bookings_policies auth_uid) r
  = sql_true (sql_eq auth_uid (bookings.user_id r)).
Proof.
  transitivity (sql_true (sql_eq auth_uid (bookings.user_id r)) || false);
    [reflexivity | apply orb_false_r].
Qed.

Lemma bookings_update_using (auth_uid : identity) (r : bookings.row) :
  rls_using UPDATE (bookings_policies auth_uid) r
  = sql_true (sql_eq auth_uid (bookings.user_id r)).
Proof.
  transitivity (sql_true (sql_eq auth_uid (bookings.user_id r)) || false);
    [reflexivity | apply orb_false_r].
Qed.

Lemma bookings_update_check (auth_uid : identity) (r : bookings.row) :
  rls_check UPDATE (bookings_policies auth_uid) r
  = sql_true (sql_eq auth_uid (bookings.user_id r)).
Proof.
  transitivity (sql_true (sql_eq auth_uid (bookings.user_id r)) || false);
    [reflexivity | apply orb_false_r].
Qed.

(** ** Events and profiles: public reads, admin writes *)

(** C1.  Whoever asks, a SELECT on events and on profiles returns every
    row.  An INSERT into events succeeds only for an identity whose profile
    has the admin flag set, and so does an UPDATE that changes anything;
    for any other identity every INSERT fails and every UPDATE leaves the
    table as it was. *)
Theorem events_rls_admin_only (auth_uid : identity) (db : database) :
  select_events auth_uid db = tbl_events db
  ∧ select_profiles auth_uid db = tbl_profiles db
  ∧ (∀ fresh now v db',
       insert_events auth_uid fresh now v db = inr db' →
       is_admin_identity auth_uid db)
  ∧ (∀ where_ set db',
       update_events auth_uid where_ set db = inr db' → db' ≠ db →
       is_admin_identity auth_uid db)
  ∧ (¬ is_admin_identity auth_uid db →
       (∀ fresh now v, ∃ e, insert_events auth_uid fresh now v db = inl e)
       ∧ (∀ where_ set, update_events auth_uid where_ set db = inr db)).
Proof.
  assert (Hins : ∀ fresh now v db',
             insert_events auth_uid fresh now v db = inr db' →
             is_admin_identity auth_uid db).
  { intros fresh now v db' H. unfold insert_events in H. inv_sql.
    match goal with
    | Hc : rls_check INSERT _ _ = true |- _ =>
        rewrite events_insert_check in Hc; by apply exists_admin_profile_true
    end. }
  assert (Hupd : ¬ is_admin_identity auth_uid db →
             ∀ where_ set, update_events auth_uid where_ set db = inr db).
  { intros Hna where_ set. unfold update_events.
    rewrite update_rows_none.
    - unfold mbind, sql_result_bind, mret, sql_result_ret.
      by rewrite set_events_same.
    - intros r _. rewrite events_update_using.
      destruct (sql_true (exists_admin_profile auth_uid db)) eqn:E.
      + by apply exists_admin_profile_true in E.
      + apply andb_false_r. }
  split; [apply select_events_all|].
  split; [apply select_profiles_all|].
  split; [exact Hins|].
  split.
  - intros where_ set db' H Hne.
    destruct (sql_true (exists_admin_profile auth_uid db)) eqn:E.
    + by apply exists_admin_profile_true.
    + exfalso. apply Hne.
      assert (Hna : ¬ is_admin_identity auth_uid db).
      { intros Ha. apply exists_admin_profile_true in Ha. congruence. }
      rewrite (Hupd Hna where_ set) in H. congruence.
  - intros Hna. split; [|by apply Hupd].
    intros fresh now v.
    destruct (insert_events auth_uid fresh now v db) as [e|db'] eqn:H; [eauto|].
    exfalso. eauto.
Qed.

(** Alice's INSERT went through, so Alice is an admin. *)
Lemma events_rls_admin_only_sample :
  insert_events (Some "alice") "event-x" 3 negative_event db_alice_admin
  = inr db_negative
  ∧ is_admin_identity (Some "alice") db_alice_admin.
Proof.
  assert (H : insert_events (Some "alice") "event-x" 3 negative_event db_alice_admin
              = inr db_negative) by (by vm_compute).
  split; [exact H|].
  destruct (events_rls_admin_only (Some "alice") db_alice_admin)
    as (_ & _ & Hins & _).
  exact (Hins "event-x" 3 negative_event db_negative H).
Defined.

(** In the sample history: Alice, an admin, changes a capacity; Bob, who is
    not, is refused an INSERT and changes nothing by an UPDATE. *)
Example events_rls_sample :
  insert_events (Some "bob") "event-y" 3 negative_event db_alice_admin
  = inl row_level_security_violation
  ∧ update_events (Some "bob") (λ _, true)
      (λ r, events.defaults 3 negative_event) db_alice_admin
    = inr db_alice_admin
  ∧ events.capacity
      <$> tbl_events
            (or_else empty_database
               (update_events (Some "alice")
                  (λ r, bool_decide (events.id r = "event-0"))
                  (λ r, events.defaults 3 negative_event) db_alice_admin))
    = [-5; 1000; 300; 200; 150; 100; 250].
Proof. by vm_compute. Qed.


(** ** Bookings: a user's own rows only *)

Lemma sql_eq_identity (auth_uid : identity) (x : option uuid) :
  sql_true (sql_eq auth_uid x) = true ↔ ∃ u, auth_uid = Some u ∧ x = Some u.
Proof. apply sql_eq_true. Qed.

(** C2.  An INSERT of a booking succeeds only if the row's user_id is the
    acting identity, and an UPDATE replaces a booking only if its user_id
    is the acting identity before and after; a booking whose user reference
    differs is rejected (the INSERT fails, the UPDATE leaves the row), and
    no flag of the identity's profile changes that. *)
Theorem bookings_write_own (auth_uid : identity) (db : database) :
  (∀ fresh now v db',
     insert_bookings auth_uid fresh now v db = inr db' →
     ∃ b u, tbl_bookings db' = (tbl_bookings db ++ [b])%list
            ∧ auth_uid = Some u ∧ bookings.user_id b = Some u)
  ∧ (∀ fresh now v,
       auth_uid = None ∨ col_or None (bookings.v_user_id v) ≠ auth_uid →
       ∃ e, insert_bookings auth_uid fresh now v db = inl e)
  ∧ (∀ where_ set db',
       update_bookings auth_uid where_ set db = inr db' →
       Forall2 (λ b b', b' = b
                        ∨ ∃ u, auth_uid = Some u ∧ bookings.user_id b = Some u
                               ∧ bookings.user_id b' = Some u)
         (tbl_bookings db) (tbl_bookings db')).
Proof.
  assert (Hins : ∀ fresh now v db',
     insert_bookings auth_uid fresh now v db = inr db' →
     ∃ b u, tbl_bookings db' = (tbl_bookings db ++ [b])%list
            ∧ auth_uid = Some u ∧ bookings.user_id b = Some u
            ∧ bookings.user_id b = col_or None (bookings.v_user_id v)).
  { intros fresh now v db' H. unfold insert_bookings in H. inv_sql. subst db'.
    match goal with
    | Hc : rls_check INSERT _ ?r = true |- _ =>
        rewrite bookings_insert_check in Hc;
        apply sql_eq_identity in Hc as (u & Hu & Hr); exists r, u
    end.
    done. }
  split; [|split].
  - intros fresh now v db' H.
    destruct (Hins _ _ _ _ H) as (b & u & ? & ? & ? & _). eauto.
  - intros fresh now v Hdiff.
    destruct (insert_bookings auth_uid fresh now v db) as [e|db'] eqn:H; [eauto|].
    exfalso. destruct (Hins _ _ _ _ H) as (b & u & _ & Hu & Hb & Hv).
    destruct Hdiff as [Hnone|Hne]; congruence.
  - intros where_ set db' H. unfold update_bookings in H. inv_sql. subst db'.
    match goal with
    | Hu : update_rows _ _ _ = inr _ |- _ => apply update_rows_Forall2 in Hu
    end.
    simpl. eapply Forall2_impl; [eassumption|].
    intros b b' [[Hsel Hupd]|[_ ->]]; [right|by left].
    apply andb_true_iff in Hsel as [_ Husing].
    rewrite bookings_update_using in Husing.
    apply sql_eq_identity in Husing as (u & Hu & Hb).
    inv_sql. subst b'.
    match goal with
    | Hc : rls_check UPDATE _ _ = true |- _ =>
        rewrite bookings_update_check in Hc;
        apply sql_eq_identity in Hc as (u' & Hu' & Hb')
    end.
    exists u. split; [done|]. split; [done|]. congruence.
Qed.

(** Bob's INSERT went through, so the row is Bob's. *)
Lemma bookings_write_own_sample :
  insert_bookings (Some "bob") "booking-1" 4
    (booking_payload "event-0" "bob" bob_form) db_alice_bob
  = inr db_booked
  ∧ ∃ b u, tbl_bookings db_booked = (tbl_bookings db_alice_bob ++ [b])%list
           ∧ Some "bob" = Some u ∧ bookings.user_id b = Some u.
Proof.
  assert (H : insert_bookings (Some "bob") "booking-1" 4
                (booking_payload "event-0" "bob" bob_form) db_alice_bob
              = inr db_booked) by (by vm_compute).
  split; [exact H|].
  destruct (bookings_write_own (Some "bob") db_alice_bob) as (Hins & _).
  exact (Hins "booking-1" 4 (booking_payload "event-0" "bob" bob_form) db_booked H).
Defined.

Lemma sql_eq_own (u : uuid) (x : option uuid) :
  sql_true (sql_eq (Some u) x) = bool_decide (x = Some u).
Proof.
  destruct x as [a|]; simpl; [|done].
  repeat case_bool_decide; congruence.
Qed.

(** C9.  A SELECT on bookings returns a row of the table if and only if
    its user_id is the acting identity: a user reads their own bookings and
    nobody else's, and a request with no identity reads none. *)
Theorem bookings_select_own (u : uuid) (db : database) :
  select_bookings (Some u) db
  = List.filter (λ b, bool_decide (bookings.user_id b = Some u)) (tbl_bookings db)
  ∧ (∀ b, b ∈ select_bookings (Some u) db
          ↔ b ∈ tbl_bookings db ∧ bookings.user_id b = Some u)
  ∧ select_bookings None db = [].
Proof.
  assert (Heq : select_bookings (Some u) db
    = List.filter (λ b, bool_decide (bookings.user_id b = Some u)) (tbl_bookings db)).
  { unfold select_bookings. apply filter_agree. intros b.
    rewrite bookings_select_using. apply sql_eq_own. }
  split; [exact Heq|]. split.
  - intros b. rewrite Heq, !list_elem_of_In, filter_In, bool_decide_eq_true. done.
  - clear Heq. unfold select_bookings. rewrite (filter_agree _ (λ _, false)).
    + induction (tbl_bookings db) as [|b l IH]; [done | exact IH].
    + intros b. by rewrite bookings_select_using.
Qed.

(** In the sample history: Alice, although an admin, does not see Bob's
    booking, cannot change it and cannot book in his name. *)
Example bookings_rls_sample :
  select_bookings (Some "alice") db_admin_booked = []
  ∧ update_bookings (Some "alice") (λ _, true) (set_status (Some cancelled))
      db_admin_booked
    = inr db_admin_booked
  ∧ insert_bookings (Some "alice") "booking-2" 5
      (booking_payload "event-0" "bob" bob_form) db_admin_booked
    = inl row_level_security_violation
  ∧ bookings.id <$> select_bookings (Some "bob") db_admin_booked = ["booking-1"].
Proof. by vm_compute. Qed.


(** ** Capacity and price *)

Lemma typed_columns (k : uuid) (t : events.tuple) (r : events.row) :
  events.typed k t = inr r →
  events.t_capacity t = Some (events.capacity r)
  ∧ events.t_price t = Some (events.price r)
  ∧ events_in_range r.
Proof.
  intros H. unfold events.typed in H. inv_sql. subst r. simpl.
  repeat match goal with
         | Hn : _ = Some _ |- _ => rewrite Hn in *; clear Hn
         end.
  simpl in *. unfold events_in_range, integer_in_range, decimal_10_2_in_range in *.
  simpl. repeat match goal with
                | Hb : bool_decide _ = true |- _ => apply bool_decide_eq_true in Hb
                end.
  done.
Qed.

Lemma insert_events_owner_inv (fresh : uuid) (now : timestamptz)
    (v : events.values) (db db' : database) :
  insert_events_owner fresh now v db = inr db' →
  ∃ k r, events.typed k (events.defaults now v) = inr r
         ∧ db' = set_events db (tbl_events db ++ [r]).
Proof. intros H. unfold insert_events_owner in H. inv_sql. eauto. Qed.

Lemma insert_events_inv (auth_uid : identity) (fresh : uuid) (now : timestamptz)
    (v : events.values) (db db' : database) :
  insert_events auth_uid fresh now v db = inr db' →
  ∃ k r, events.typed k (events.defaults now v) = inr r
         ∧ db' = set_events db (tbl_events db ++ [r]).
Proof. intros H. unfold insert_events in H. inv_sql. eauto. Qed.

(** What holds of the rows before and of every row the [VALUES] can
    give holds of the rows after. *)
Lemma insert_all_events_owner_Forall (P : events.row → Prop) (gen : nat → uuid)
    (now : timestamptz) (vs : list events.values) :
  Forall (λ v, ∀ k r, events.typed k (events.defaults now v) = inr r → P r) vs →
  ∀ n db db',
    insert_all_events_owner gen n now vs db = inr db' →
    Forall P (tbl_events db) → Forall P (tbl_events db').
Proof.
  induction 1 as [|v vs Hv _ IH]; intros n db db' H HP; simpl in H.
  - by injection H as <-.
  - inv_sql.
    match goal with
    | Hi : insert_events_owner _ _ _ _ = inr _ |- _ =>
        apply insert_events_owner_inv in Hi as (k & r & Ht & ->)
    end.
    eapply IH; [eassumption|]. simpl.
    apply Forall_app. split; [done|]. constructor; [eauto | constructor].
Qed.

Lemma insert_all_events_owner_length (gen : nat → uuid) (now : timestamptz)
    (vs : list events.values) :
  ∀ n db db',
    insert_all_events_owner gen n now vs db = inr db' →
    length (tbl_events db') = (length (tbl_events db) + length vs)%nat.
Proof.
  induction vs as [|v vs IH]; intros n db db' H; simpl in H.
  - injection H as <-. simpl. lia.
  - inv_sql.
    match goal with
    | Hi : insert_events_owner _ _ _ _ = inr _ |- _ =>
        apply insert_events_owner_inv in Hi as (k & r & Ht & ->)
    end.
    rewrite (IH _ _ _ H). simpl. rewrite length_app. simpl. lia.
Qed.

Lemma step_events_in_range (db db' : database) :
  step db db' →
  Forall events_in_range (tbl_events db) → Forall events_in_range (tbl_events db').
Proof.
  intros Hstep HP. destruct Hstep as
    [new_id fn av now db db' H | auth_uid where_ set db db' H
    | auth_uid fresh now v db db' H | auth_uid where_ set db db' H
    | auth_uid fresh now v db db' H | auth_uid where_ set db db' H].
  - unfold on_auth_user_created, handle_new_user in H. inv_sql. by subst db'.
  - unfold update_profiles in H. inv_sql. by subst db'.
  - apply insert_events_inv in H as (k & r & Ht & ->). simpl.
    apply Forall_app. split; [done|].
    constructor; [by apply typed_columns in Ht as (_ & _ & ?) | constructor].
  - unfold update_events in H. inv_sql. subst db'. simpl.
    match goal with
    | Hu : update_rows _ _ _ = inr _ |- _ => apply update_rows_Forall2 in Hu
    end.
    eapply Forall2_Forall_r; [eassumption|].
    eapply Forall_impl; [exact HP|].
    intros r Hr r' [[_ Hupd]|[_ ->]]; [|done].
    inv_sql. subst r'.
    match goal with
    | Ht : events.typed _ _ = inr _ |- _ =>
        by apply typed_columns in Ht as (_ & _ & ?)
    end.
  - unfold insert_bookings in H. inv_sql. by subst db'.
  - unfold update_bookings in H. inv_sql. by subst db'.
Qed.

Lemma sample_data_in_range (now : timestamptz) :
  Forall (λ v, ∀ k r, events.typed k (events.defaults now v) = inr r →
                      0 ≤ events.capacity r ∧ 0 ≤ events.price r)
    sample_data.
Proof.
  unfold sample_data.
  repeat (constructor;
          [intros k r Ht; apply typed_columns in Ht as (Hc & Hp & _);
           simpl in Hc, Hp; injection Hc as <-; injection Hp as <-; lia|]).
  constructor.
Qed.

(** C5, as amended.  In every reachable state every events row has a
    capacity within [integer] and a price within [decimal(10,2)] (neither
    is NULL); the seed rows have capacity ≥ 0 and price ≥ 0, and a row
    inserted without a capacity or a price gets 0 for it.  Nothing in the
    schema asks more of a write. *)
Theorem events_capacity_price_range :
  (∀ db, reachable db → Forall events_in_range (tbl_events db))
  ∧ (∀ gen now db,
       migration gen now = inr db →
       Forall (λ r, 0 ≤ events.capacity r ∧ 0 ≤ events.price r) (tbl_events db))
  ∧ (∀ auth_uid fresh now v db db',
       insert_events auth_uid fresh now v db = inr db' →
       ∃ r, tbl_events db' = (tbl_events db ++ [r])%list
            ∧ (events.v_capacity v = DEFAULT → events.capacity r = 0)
            ∧ (events.v_price v = DEFAULT → events.price r = 0)).
Proof.
  split; [|split].
  - induction 1 as [gen now db H | db db' _ IH Hstep].
    + unfold migration in H.
      eapply (insert_all_events_owner_Forall events_in_range); [|exact H|constructor].
      apply Forall_forall. intros v _ k r Ht.
      by apply typed_columns in Ht as (_ & _ & ?).
    + by eapply step_events_in_range.
  - intros gen now db H. unfold migration in H.
    eapply insert_all_events_owner_Forall;
      [apply sample_data_in_range | exact H | constructor].
  - intros auth_uid fresh now v db db' H.
    apply insert_events_inv in H as (k & r & Ht & ->).
    exists r. split; [done|].
    apply typed_columns in Ht as (Hc & Hp & _). simpl in Hc, Hp.
    split; intros Hd; rewrite Hd in *; simpl in *; congruence.
Qed.

(** The sample history is a run of the system. *)
Lemma db_alice_bob_reachable : reachable db_alice_bob.
Proof.
  apply (reachable_step db_alice);
    [apply (reachable_step db_migrated);
       [apply (reachable_migration sample_gen 0); by vm_compute|]|].
  - by apply (step_auth_user_created "alice" (Some "Alice") None 1).
  - by apply (step_auth_user_created "bob" (Some "Bob") None 2).
Qed.

Lemma db_negative_reachable : reachable db_negative.
Proof.
  apply (reachable_step db_alice_admin);
    [apply (reachable_step db_alice_bob); [apply db_alice_bob_reachable|]|].
  - by apply (step_update_profiles (Some "alice")
                (λ p, bool_decide (profiles.id p = "alice"))
                (set_is_admin (Some true))).
  - by apply (step_insert_events (Some "alice") "event-x" 3 negative_event).
Qed.

Lemma db_confirmed_reachable : reachable db_confirmed.
Proof.
  apply (reachable_step db_booked);
    [apply (reachable_step db_alice_bob); [apply db_alice_bob_reachable|]|].
  - by apply (step_insert_bookings (Some "bob") "booking-1" 4
                (booking_payload "event-0" "bob" bob_form)).
  - by apply (step_update_bookings (Some "bob")
                (λ b, bool_decide (bookings.id b = "booking-1"))
                (set_status (Some confirmed))).
Qed.

(** The range invariant at the state the sample history ends in. *)
Lemma events_capacity_price_range_sample :
  reachable db_negative ∧ Forall events_in_range (tbl_events db_negative).
Proof.
  split; [apply db_negative_reachable|].
  apply (proj1 events_capacity_price_range db_negative), db_negative_reachable.
Defined.

(** C5 fails as stated: an admin's INSERT with a negative capacity and a
    negative price is accepted, and the row is there in a reachable
    state. *)
Lemma events_negative_capacity_price :
  insert_events (Some "alice") "event-x" 3 negative_event db_alice_admin
  = inr db_negative
  ∧ reachable db_negative
  ∧ Exists (λ r, events.capacity r < 0 ∧ events.price r < 0) (tbl_events db_negative).
Proof.
  split; [by vm_compute|]. split; [apply db_negative_reachable|].
  vm_compute. do 7 apply Exists_cons_tl. apply Exists_cons_hd. done.
Qed.

(** ** Status changes *)

(** C6, as amended.  The owner of a booking may set its status to any of
    the three values, whatever the status was: with the references of the
    table in place, [UPDATE bookings SET status = s WHERE id = k] by [u]
    succeeds and gives status [s] to the rows with that id that [u] owns;
    every other row stays as it was. *)
Theorem bookings_status_any_change (u k : uuid) (s : booking_status) (db : database) :
  bookings_referenced db →
  update_bookings (Some u) (λ b, bool_decide (bookings.id b = k))
    (set_status (Some s)) db
  = inr (set_bookings db
           ((λ b, if bool_decide (bookings.id b = k)
                     && bool_decide (bookings.user_id b = Some u)
                  then with_status (Some s) b else b) <$> tbl_bookings db)).
Proof.
  intros Href. unfold update_bookings.
  rewrite (update_rows_all _ _ (with_status (Some s))).
  - unfold mbind, sql_result_bind, mret, sql_result_ret. do 2 f_equal.
    apply list_fmap_ext. intros _ b _. simpl.
    by rewrite bookings_update_using, sql_eq_own.
  - intros b Hb Hsel.
    apply andb_true_iff in Hsel as [_ Husing].
    rewrite bookings_update_using in Husing.
    unfold bookings_referenced in Href.
    rewrite Forall_forall in Href. destruct (Href b Hb) as [Hev Hus].
    change (bookings.with_key (bookings.id b) (set_status (Some s) b))
      with (with_status (Some s) b).
    rewrite (bind_inr_l _ _ tt).
    + rewrite (bind_inr_l _ _ tt); [done|].
      unfold bookings_constraints.
      rewrite (bind_inr_l _ _ tt); by apply require_true.
    + apply require_true. by rewrite bookings_update_check.
Qed.

(** Bob's confirmed booking, cancelled by Bob. *)
Lemma bookings_status_any_change_sample :
  bookings_referenced db_confirmed
  ∧ update_bookings (Some "bob") (λ b, bool_decide (bookings.id b = "booking-1"))
      (set_status (Some cancelled)) db_confirmed
    = inr (set_bookings db_confirmed
             ((λ b, if bool_decide (bookings.id b = "booking-1")
                       && bool_decide (bookings.user_id b = Some "bob")
                    then with_status (Some cancelled) b else b)
                <$> tbl_bookings db_confirmed)).
Proof.
  assert (Href : bookings_referenced db_confirmed).
  { vm_compute. repeat constructor. }
  split; [exact Href|].
  exact (bookings_status_any_change "bob" "booking-1" cancelled db_confirmed Href).
Defined.

(** C6 fails as stated: Bob's booking, confirmed, goes back to pending by
    an UPDATE of his own. *)
Lemma bookings_status_confirmed_to_pending :
  reachable db_confirmed
  ∧ bookings.status <$> tbl_bookings db_confirmed = [Some confirmed]
  ∧ update_bookings (Some "bob") (λ b, bool_decide (bookings.id b = "booking-1"))
      (set_status (Some pending)) db_confirmed
    = inr db_pending_again
  ∧ bookings.status <$> tbl_bookings db_pending_again = [Some pending].
Proof.
  split; [apply db_confirmed_reachable|]. by vm_compute.
Qed.

(** ** The event list, page by page *)

Global Instance date_le_total : Total date_le.
Proof.
  intros x y. unfold date_le, date_compare.
  rewrite (Z.compare_antisym (year x) (year y)),
    (Z.compare_antisym (month x) (month y)), (Z.compare_antisym (day x) (day y)).
  destruct (year x ?= year y), (month x ?= month y), (day x ?= day y);
    simpl; auto.
Qed.

Global Instance events_by_date_total : Total events_by_date.
Proof. intros r1 r2. apply date_le_total. Qed.

(** [Math_ceil_div a b] is the least integer not below [a / b]. *)
Lemma Math_ceil_div_spec (a b : Z) :
  0 < b → (Math_ceil_div a b - 1) * b < a ≤ Math_ceil_div a b * b.
Proof.
  intros Hb. unfold Math_ceil_div.
  pose proof (Z.div_mod (- a) b ltac:(lia)) as Hdm.
  pose proof (Z.mod_pos_bound (- a) b Hb) as Hr.
  nia.
Qed.

Lemma migration_count (gen : nat → uuid) (now : timestamptz) (db : database) :
  migration gen now = inr db → length (tbl_events db) = 7%nat.
Proof.
  intros H. unfold migration in H.
  apply insert_all_events_owner_length in H. exact H.
Qed.

Lemma fetchEvents_online toLocale (be : backend) (s : App) :
  be_online be = true → 1 ≤ currentPage s →
  events_ (fetchEvents toLocale be s)
  = transform toLocale
      <$> take 9 (drop (Z.to_nat ((currentPage s - 1) * 9))
                    (merge_sort events_by_date (tbl_events (be_db be))))
  ∧ totalCount (fetchEvents toLocale be s) = Z.of_nat (length (tbl_events (be_db be))).
Proof.
  intros Hon Hp. unfold fetchEvents, events_range_by_date, count_events.
  simpl. rewrite Hon, select_events_all. unfold ITEMS_PER_PAGE.
  rewrite bool_decide_eq_false_2 by lia. simpl.
  replace (currentPage s * 9 - 1 - (currentPage s - 1) * 9 + 1) with 9 by lia.
  done.
Qed.

(** C7.  With the backend answering and the current page [p ≥ 1],
    [fetchEvents] loads the rows at offsets [(p-1)·9] to [p·9-1] of the
    events in ascending date order, the total count comes from a query of
    its own over the whole table, and [totalPages] is the ceiling of
    [totalCount / 9]; on the migrated database that is one page. *)
Theorem fetchEvents_pagination toLocale (be : backend) (s : App) :
  be_online be = true → 1 ≤ currentPage s →
  events_ (fetchEvents toLocale be s)
  = transform toLocale
      <$> take 9 (drop (Z.to_nat ((currentPage s - 1) * 9))
                    (merge_sort events_by_date (tbl_events (be_db be))))
  ∧ (∀ o, (currentPage s - 1) * 9 ≤ o ≤ currentPage s * 9 - 1 →
          events_ (fetchEvents toLocale be s)
            !! Z.to_nat (o - (currentPage s - 1) * 9)
          = transform toLocale
              <$> merge_sort events_by_date (tbl_events (be_db be)) !! Z.to_nat o)
  ∧ (length (events_ (fetchEvents toLocale be s)) ≤ 9)%nat
  ∧ Sorted events_by_date (merge_sort events_by_date (tbl_events (be_db be)))
  ∧ merge_sort events_by_date (tbl_events (be_db be)) ≡ₚ tbl_events (be_db be)
  ∧ totalCount (fetchEvents toLocale be s) = Z.of_nat (length (tbl_events (be_db be)))
  ∧ totalPages (fetchEvents toLocale be s)
    = Math_ceil_div (totalCount (fetchEvents toLocale be s)) 9
  ∧ (totalPages (fetchEvents toLocale be s) - 1) * 9
    < totalCount (fetchEvents toLocale be s)
    ≤ totalPages (fetchEvents toLocale be s) * 9
  ∧ (∀ gen now, migration gen now = inr (be_db be) →
                totalPages (fetchEvents toLocale be s) = 1).
Proof.
  intros Hon Hp.
  destruct (fetchEvents_online toLocale be s Hon Hp) as [Hev Hcount].
  split; [exact Hev|]. split; [|split].
  - intros o Ho. rewrite Hev, !list_lookup_fmap. f_equal.
    rewrite lookup_take_lt by lia. rewrite lookup_drop. f_equal. lia.
  - rewrite Hev, length_fmap, length_take. lia.
  - split; [apply Sorted_merge_sort, _|].
    split; [apply merge_sort_Permutation|].
    split; [exact Hcount|]. split; [done|].
    split; [apply (Math_ceil_div_spec _ 9); lia|].
    intros gen now Hm. unfold totalPages. rewrite Hcount.
    by rewrite (migration_count _ _ _ Hm).
Qed.

(** Bob's first page of the migrated events. *)
Lemma fetchEvents_pagination_sample :
  1 ≤ currentPage (initial_App (Some bob))
  ∧ totalPages (fetchEvents (λ _, "4/15/2024") (mk_backend db_migrated true)
                  (initial_App (Some bob))) = 1.
Proof.
  assert (Hp : 1 ≤ currentPage (initial_App (Some bob))) by (simpl; lia).
  split; [exact Hp|].
  destruct (fetchEvents_pagination (λ _, "4/15/2024")
              (mk_backend db_migrated true) (initial_App (Some bob)) eq_refl Hp)
    as (_ & _ & _ & _ & _ & _ & _ & _ & Hseed).
  apply (Hseed sample_gen 0). by vm_compute.
Defined.

(** ** Submitting a booking *)

Lemma selectedEvent_id (s : App) (e : Event.t) :
  selectedEvent s = Some e → selectedEventId s = Some (Event.id e).
Proof.
  unfold selectedEvent. destruct (selectedEventId s) as [i|]; [|done].
  intros H. apply find_some in H as [_ H].
  apply bool_decide_eq_true in H. by rewrite H.
Qed.

Lemma insert_bookings_own (fresh : uuid) (now : timestamptz) (db : database)
    (eventId user_id : uuid) (form : BookingFormData) :
  eventId ∈ event_ids db → user_id ∈ profile_ids db → fresh ∉ booking_ids db →
  insert_bookings (Some user_id) fresh now (booking_payload eventId user_id form) db
  = inr (set_bookings db
           (tbl_bookings db ++
              [bookings.mk fresh (Some eventId) (Some user_id) (Some pending)
                 (Some (preferences form)) (Some now) (Some now)])).
Proof.
  intros Hev Hus Hfresh. unfold insert_bookings, booking_payload.
  cbn [bookings.v_status bookings.v_id bookings.v_event_id bookings.v_user_id
       bookings.v_preferences bookings.v_created_at bookings.v_updated_at col_or].
  change (bookings.status_in (VALUE (Some "pending"))) with
    (inr (Some pending) : sql_result (option booking_status)).
  rewrite (bind_inr_l _ _ (Some pending)) by done.
  rewrite (bind_inr_l _ _ fresh) by done.
  rewrite (bind_inr_l _ _ tt).
  2: { apply require_true. rewrite bookings_insert_check, sql_eq_own. simpl.
       by apply bool_decide_eq_true. }
  rewrite (bind_inr_l _ _ tt).
  2: { apply require_true. by apply bool_decide_eq_true. }
  rewrite (bind_inr_l _ _ tt); [done|].
  unfold bookings_constraints. simpl.
  rewrite (bind_inr_l _ _ tt); apply require_true; by apply bool_decide_eq_true.
Qed.

Lemma handleBookingSubmit_ok (fresh : uuid) (now : timestamptz)
    (form : BookingFormData) (db : database) (s : App) (u : auth_user) (e : Event.t) :
  user s = Some u → selectedEvent s = Some e → Event.id e ≠ "" →
  Event.id e ∈ event_ids db → auth_user_id u ∈ profile_ids db →
  fresh ∉ booking_ids db →
  handleBookingSubmit fresh now form (mk_backend db true, s)
  = (resolved,
     (mk_backend
        (set_bookings db (tbl_bookings db ++ [submitted_booking fresh now e u form]))
        true, s)).
Proof.
  intros Hu He Hne Hev Hus Hfresh.
  apply selectedEvent_id in He.
  unfold handleBookingSubmit. rewrite Hu, He.
  unfold js_truthy. rewrite bool_decide_eq_false_2 by done.
  cbn [negb]. unfold bookings_insert. cbn [be_online be_db].
  unfold auth_uid. cbn [fmap option_fmap option_map].
  by rewrite (insert_bookings_own fresh now db _ _ form Hev Hus Hfresh).
Qed.

(** C3.  With a user signed in and an event selected (the backend
    answering, the event and the user's profile in the database),
    submitting the booking form inserts exactly one bookings row: that
    event, that user, the preferences of the form, status pending.  No
    capacity and no earlier booking is looked at: a second submission for
    the same event by the same user inserts a second row. *)
Theorem handleBookingSubmit_inserts_pending (fresh fresh2 : uuid)
    (now now2 : timestamptz) (form form2 : BookingFormData)
    (db : database) (s : App) (u : auth_user) (e : Event.t) :
  user s = Some u → selectedEvent s = Some e → Event.id e ≠ "" →
  Event.id e ∈ event_ids db → auth_user_id u ∈ profile_ids db →
  fresh ∉ booking_ids db → fresh2 ∉ booking_ids db → fresh2 ≠ fresh →
  handleBookingSubmit fresh now form (mk_backend db true, s)
  = (resolved,
     (mk_backend
        (set_bookings db (tbl_bookings db ++ [submitted_booking fresh now e u form]))
        true, s))
  ∧ handleBookingSubmit fresh2 now2 form2
      (mk_backend
         (set_bookings db (tbl_bookings db ++ [submitted_booking fresh now e u form]))
         true, s)
    = (resolved,
       (mk_backend
          (set_bookings db
             (tbl_bookings db ++ [submitted_booking fresh now e u form;
                                  submitted_booking fresh2 now2 e u form2]))
          true, s)).
Proof.
  intros Hu He Hne Hev Hus Hfresh Hfresh2 Hdiff.
  split; [by apply handleBookingSubmit_ok|].
  rewrite (handleBookingSubmit_ok fresh2 now2 form2 _ s u e); try done.
  - simpl. unfold set_bookings. simpl. by rewrite <- app_assoc.
  - unfold booking_ids. simpl. rewrite fmap_app. simpl.
    rewrite elem_of_app, list_elem_of_singleton. intros [?|?]; done.
Qed.

(** Bob books the first event twice. *)
Lemma handleBookingSubmit_inserts_pending_sample :
  (user bob_app = Some bob ∧ selectedEvent bob_app = Some bob_event
   ∧ Event.id bob_event = "event-0")
  ∧ handleBookingSubmit "booking-1" 4 bob_form (mk_backend db_alice_bob true, bob_app)
    = (resolved,
       (mk_backend
          (set_bookings db_alice_bob
             (tbl_bookings db_alice_bob
                ++ [submitted_booking "booking-1" 4 bob_event bob bob_form]))
          true, bob_app))
  ∧ handleBookingSubmit "booking-2" 5 bob_form
      (mk_backend
         (set_bookings db_alice_bob
            (tbl_bookings db_alice_bob
               ++ [submitted_booking "booking-1" 4 bob_event bob bob_form]))
         true, bob_app)
    = (resolved,
       (mk_backend
          (set_bookings db_alice_bob
             (tbl_bookings db_alice_bob
                ++ [submitted_booking "booking-1" 4 bob_event bob bob_form;
                    submitted_booking "booking-2" 5 bob_event bob bob_form]))
          true, bob_app)).
Proof.
  assert (Hu : user bob_app = Some bob) by (by vm_compute).
  assert (He : selectedEvent bob_app = Some bob_event) by (by vm_compute).
  assert (Hid : Event.id bob_event = "event-0") by (by vm_compute).
  split; [done|].
  apply (handleBookingSubmit_inserts_pending "booking-1" "booking-2" 4 5
           bob_form bob_form db_alice_bob bob_app bob bob_event Hu He).
  - by rewrite Hid.
  - compute_done.
  - compute_done.
  - compute_done.
  - compute_done.
  - done.
Defined.

(** ** A rejected submission *)

Lemma handleSubmit_rejected {W : Type}
    (onSubmit : BookingFormData → W → settled * W)
    (m : BookingModal) (w w' : W) (err : client_error) :
  onSubmit (formData m) w = (rejected err, w') →
  handleSubmit onSubmit m w = (setIsSubmitting false m, [], w').
Proof.
  intros H. unfold handleSubmit. cbn [formData setIsSubmitting].
  rewrite H. by destruct m.
Qed.

Lemma handleBookingSubmit_rejected (fresh : uuid) (now : timestamptz)
    (form : BookingFormData) (be be' : backend) (s s' : App) (err : client_error) :
  handleBookingSubmit fresh now form (be, s) = (rejected err, (be', s')) →
  be' = be ∧ s' = toast_error "Failed to submit booking" s.
Proof.
  unfold handleBookingSubmit, bookings_insert.
  destruct (user s) as [u|]; [|discriminate].
  destruct (selectedEventId s) as [i|]; [|discriminate].
  destruct (js_truthy (Some i)); [|discriminate].
  destruct (be_online be); [|intros [= <- <- <-]; done].
  destruct (insert_bookings _ _ _ _ _); [|discriminate].
  intros [= <- <- <-]. done.
Qed.

(** C8.  When the submission is rejected, [handleSubmit] leaves the modal
    as it was with [isSubmitting] false: the form data and [isSuccess] are
    unchanged, no timer is set, [isModalOpen] is unchanged, and a modal that
    showed the form shows it again with the same entries and the submit
    button enabled. *)
Theorem submit_rejected_keeps_form (fresh : uuid) (now : timestamptz) (p : page)
    (err : client_error) (w' : backend * App) :
  handleBookingSubmit fresh now (formData (page_modal p))
    (page_backend p, page_app p) = (rejected err, w') →
  page_modal (submit_booking_form fresh now p) = setIsSubmitting false (page_modal p)
  ∧ formData (page_modal (submit_booking_form fresh now p)) = formData (page_modal p)
  ∧ isSuccess (page_modal (submit_booking_form fresh now p)) = isSuccess (page_modal p)
  ∧ isSubmitting (page_modal (submit_booking_form fresh now p)) = false
  ∧ page_timers (submit_booking_form fresh now p) = page_timers p
  ∧ isModalOpen (page_app (submit_booking_form fresh now p)) = isModalOpen (page_app p)
  ∧ (isModalOpen (page_app p) = true → isSuccess (page_modal p) = false →
     page_view (submit_booking_form fresh now p)
     = view_form (name (formData (page_modal p))) (email (formData (page_modal p)))
         (preferences (formData (page_modal p))) false "Confirm Booking").
Proof.
  intros H. destruct w' as [be' s'].
  pose proof (handleBookingSubmit_rejected _ _ _ _ _ _ _ _ H) as [-> ->].
  unfold submit_booking_form, page_view.
  rewrite (handleSubmit_rejected _ _ _ _ _ H).
  cbn [page_modal page_app page_timers]. rewrite app_nil_r.
  repeat split; try done.
  intros Hopen Hsucc. unfold render_BookingModal. simpl.
  by rewrite Hopen, Hsucc.
Qed.

(** Bob submits while the backend cannot be reached. *)
Lemma submit_rejected_keeps_form_sample :
  handleBookingSubmit "booking-2" 5 bob_form (mk_backend db_alice_bob false, bob_app)
  = (rejected fetch_failed,
     (mk_backend db_alice_bob false, toast_error "Failed to submit booking" bob_app))
  ∧ page_modal (submit_booking_form "booking-2" 5
                  (bob_page (mk_backend db_alice_bob false)))
    = mk_BookingModal bob_form false false
  ∧ page_view (submit_booking_form "booking-2" 5
                 (bob_page (mk_backend db_alice_bob false)))
    = view_form "Bob" "bob@example.org" "vegan" false "Confirm Booking".
Proof.
  assert (H : handleBookingSubmit "booking-2" 5 bob_form
                (mk_backend db_alice_bob false, bob_app)
              = (rejected fetch_failed,
                 (mk_backend db_alice_bob false,
                  toast_error "Failed to submit booking" bob_app)))
    by (by vm_compute).
  split; [exact H|].
  destruct (submit_rejected_keeps_form "booking-2" 5
              (bob_page (mk_backend db_alice_bob false)) fetch_failed _ H)
    as (Hmodal & _ & _ & _ & _ & _ & Hview).
  split; [exact Hmodal|].
  apply Hview; by vm_compute.
Defined.

(** ** The booking button *)

(** C10, as amended.  Every event the fetch builds has [registeredCount]
    0, so the button of its card is disabled, and reads "Sold Out", if and
    only if the capacity is at most 0; for a capacity that is not negative
    that is: if and only if it is 0. *)
Theorem EventCard_sold_out toLocale (row : events.row) :
  Event.registeredCount (transform toLocale row) = 0
  ∧ (button_disabled (EventCard (transform toLocale row)) = true
     ↔ events.capacity row ≤ 0)
  ∧ (button_label (EventCard (transform toLocale row)) = "Sold Out"
     ↔ events.capacity row ≤ 0)
  ∧ (0 ≤ events.capacity row →
     (button_disabled (EventCard (transform toLocale row)) = true
      ↔ events.capacity row = 0))
  ∧ (∀ be s, be_online be = true → 1 ≤ currentPage s →
       Forall (λ ev, Event.registeredCount ev = 0
                     ∧ (button_disabled (EventCard ev) = true ↔ Event.capacity ev ≤ 0))
         (events_ (fetchEvents toLocale be s))).
Proof.
  assert (Hdis : ∀ r, button_disabled (EventCard (transform toLocale r)) = true
                      ↔ events.capacity r ≤ 0).
  { intros r. unfold EventCard, transform. simpl. rewrite Z.geb_le. done. }
  split; [done|]. split; [apply Hdis|]. split; [|split].
  - unfold EventCard, transform. simpl.
    destruct (0 >=? events.capacity row) eqn:E.
    + rewrite Z.geb_le in E. done.
    + split; [discriminate|]. intros Hle. apply Z.geb_le in Hle. congruence.
  - intros Hnn. rewrite Hdis. lia.
  - intros be s Hon Hp.
    destruct (fetchEvents_online toLocale be s Hon Hp) as [-> _].
    apply Forall_fmap, Forall_forall. intros r _. simpl.
    split; [done|]. apply Hdis.
Qed.

(** The first page of the sample history, negative capacity included. *)
Lemma EventCard_sold_out_sample :
  1 ≤ currentPage (initial_App None)
  ∧ Forall (λ ev, Event.registeredCount ev = 0
                  ∧ (button_disabled (EventCard ev) = true ↔ Event.capacity ev ≤ 0))
      (events_ (fetchEvents (λ _, "1/1/2024") (mk_backend db_negative true)
                  (initial_App None))).
Proof.
  assert (Hp : 1 ≤ currentPage (initial_App None)) by (simpl; lia).
  split; [exact Hp|].
  destruct (EventCard_sold_out (λ _, "1/1/2024")
              (events.mk "" "" None (mk_date 2024 1 1) "" "" None 0 0
                 None None None None))
    as (_ & _ & _ & _ & Hall).
  exact (Hall (mk_backend db_negative true) (initial_App None) eq_refl Hp).
Defined.

(** C10 fails as stated: the event with capacity -5 of the sample
    history is shown sold out. *)
Lemma EventCard_sold_out_negative :
  reachable db_negative
  ∧ Exists (λ ev, Event.capacity ev ≠ 0
                  ∧ button_disabled (EventCard ev) = true
                  ∧ button_label (EventCard ev) = "Sold Out")
      (events_ (fetchEvents (λ _, "1/1/2024") (mk_backend db_negative true)
                  (initial_App None))).
Proof.
  split; [apply db_negative_reachable|].
  vm_compute. apply Exists_cons_hd. done.
Qed.

(** ** The two status types *)

(** C4.  The enum of the database has the labels pending, confirmed and
    cancelled; the client's [Booking] has pending, confirmed and
    declined.  The database refuses the text declined, and no value of
    the client's type reads cancelled. *)
Theorem booking_status_labels_differ :
  (∀ s : booking_status, s ∈ booking_status_values)
  ∧ booking_status_label <$> booking_status_values
    = ["pending"; "confirmed"; "cancelled"]
  ∧ (∀ s : Booking.Status, s ∈ Booking.status_values)
  ∧ Booking.status_label <$> Booking.status_values
    = ["pending"; "confirmed"; "declined"]
  ∧ booking_status_in "declined" = inl invalid_text_representation
  ∧ (∀ s : Booking.Status, Booking.status_label s ≠ booking_status_label cancelled).
Proof.
  split; [intros []; compute_done|].
  split; [done|].
  split; [intros []; unfold Booking.status_values; repeat constructor|].
  split; [done|]. split; [done|].
  intros []; discriminate.
Qed.

(** ** Keys, references and the rows of a new identity *)

Lemma key_free_true (k : uuid) (keys : list uuid) : key_free k keys = true ↔ k ∉ keys.
Proof. unfold key_free. apply bool_decide_eq_true. Qed.

Lemma NoDup_snoc_key (k : uuid) (keys : list uuid) :
  NoDup keys → k ∉ keys → NoDup (keys ++ [k]).
Proof.
  intros Hnd Hk. apply NoDup_app. split; [done|]. split.
  - intros x Hx Hx'. apply list_elem_of_singleton in Hx'. by subst.
  - apply NoDup_singleton.
Qed.

Lemma references_app (v : option uuid) (keys more : list uuid) :
  references v keys = true → references v (keys ++ more) = true.
Proof.
  destruct v as [k|]; simpl; [|done].
  rewrite !bool_decide_eq_true, elem_of_app. auto.
Qed.

Section update_rows_keys.
Context {R K : Type} (key : R → K) (sel : R → bool) (upd : R → sql_result R).

Lemma update_rows_fmap (rows rows' : list R) :
  (∀ r r', upd r = inr r' → key r' = key r) →
  update_rows sel upd rows = inr rows' → key <$> rows' = key <$> rows.
Proof.
  intros Hkey H. apply update_rows_Forall2 in H.
  induction H as [|r r' rows rows' Hr _ IH]; [done|].
  simpl. f_equal; [|exact IH].
  destruct Hr as [[_ Hu]|[_ ->]]; [by apply Hkey | done].
Qed.

Lemma update_rows_Forall (P : R → Prop) (rows rows' : list R) :
  (∀ r r', upd r = inr r' → P r') → Forall P rows →
  update_rows sel upd rows = inr rows' → Forall P rows'.
Proof.
  intros HP Hrows H. apply update_rows_Forall2 in H.
  eapply Forall2_Forall_r; [exact H|].
  eapply Forall_impl; [exact Hrows|].
  intros r Hr r' [[_ Hu]|[_ ->]]; [by eapply HP | done].
Qed.
End update_rows_keys.

Lemma consistent_empty : consistent empty_database.
Proof.
  unfold consistent, bookings_referenced. simpl.
  repeat split; try apply NoDup_nil_2; constructor.
Qed.

Lemma insert_events_owner_shape (fresh : uuid) (now : timestamptz)
    (v : events.values) (db db' : database) :
  insert_events_owner fresh now v db = inr db' →
  ∃ r, db' = set_events db (tbl_events db ++ [r])
       ∧ (events.id r ∉ event_ids db)
       ∧ references (events.created_by r) (profile_ids db) = true.
Proof.
  intros H. unfold insert_events_owner, events_constraints in H. inv_sql.
  match goal with
  | Ht : events.typed ?k _ = inr ?r |- _ =>
      exists r; assert (events.id r = k) as ->
        by (unfold events.typed in Ht; inv_sql; by subst r)
  end.
  split; [done|]. split; [by apply key_free_true | done].
Qed.

Lemma insert_events_shape (auth_uid : identity) (fresh : uuid) (now : timestamptz)
    (v : events.values) (db db' : database) :
  insert_events auth_uid fresh now v db = inr db' →
  ∃ r, db' = set_events db (tbl_events db ++ [r])
       ∧ (events.id r ∉ event_ids db)
       ∧ references (events.created_by r) (profile_ids db) = true.
Proof.
  intros H. unfold insert_events, events_constraints in H. inv_sql.
  match goal with
  | Ht : events.typed ?k _ = inr ?r |- _ =>
      exists r; assert (events.id r = k) as ->
        by (unfold events.typed in Ht; inv_sql; by subst r)
  end.
  split; [done|]. split; [by apply key_free_true | done].
Qed.

Lemma consistent_add_event (db : database) (r : events.row) :
  consistent db → events.id r ∉ event_ids db →
  references (events.created_by r) (profile_ids db) = true →
  consistent (set_events db (tbl_events db ++ [r])).
Proof.
  intros (Hpa & Hnp & Hne & Hnb & Hun & Hev & Hbk) Hfree Href.
  unfold consistent, bookings_referenced, profile_ids, event_ids, booking_ids in *.
  simpl. repeat split; try done.
  - rewrite fmap_app. by apply NoDup_snoc_key.
  - apply Forall_app. split; [done|]. by constructor.
  - eapply Forall_impl; [exact Hbk|]. intros b [Hb1 Hb2].
    split; [|done]. rewrite fmap_app. by apply references_app.
Qed.

Lemma migration_consistent (gen : nat → uuid) (now : timestamptz) (db : database) :
  migration gen now = inr db → consistent db.
Proof.
  unfold migration. generalize 0%nat, consistent_empty.
  generalize empty_database. induction sample_data as [|v vs IH];
    intros db0 n Hc H; simpl in H.
  - by injection H as <-.
  - inv_sql.
    match goal with
    | Hi : insert_events_owner _ _ _ _ = inr _ |- _ =>
        apply insert_events_owner_shape in Hi as (r & -> & Hfree & Href)
    end.
    eapply IH; [|exact H]. by apply consistent_add_event.
Qed.

Lemma step_consistent (db db' : database) : step db db' → consistent db → consistent db'.
Proof.
  intros Hstep Hc. destruct Hstep as
    [new_id fn av now db db' H | auth_uid where_ set db db' H
    | auth_uid fresh now v db db' H | auth_uid where_ set db db' H
    | auth_uid fresh now v db db' H | auth_uid where_ set db db' H].
  - destruct Hc as (Hpa & Hnp & Hne & Hnb & Hun & Hev & Hbk).
    unfold on_auth_user_created, handle_new_user in H. inv_sql. subst db'.
    repeat match goal with
           | Hk : key_free _ _ = true |- _ => apply key_free_true in Hk
           end.
    unfold consistent, bookings_referenced, profile_ids, event_ids, booking_ids,
      usernames_unique in *.
    simpl in *. rewrite !fmap_app. simpl. repeat split; try done.
    + by rewrite Hpa.
    + by apply NoDup_snoc_key.
    + rewrite omap_app. simpl. by rewrite app_nil_r.
    + eapply Forall_impl; [exact Hev|]. intros e. apply references_app.
    + eapply Forall_impl; [exact Hbk|]. intros b [Hb1 Hb2].
      split; [done|]. by apply references_app.
  - destruct Hc as (Hpa & Hnp & Hne & Hnb & Hun & Hev & Hbk).
    unfold update_profiles in H. inv_sql. subst db'.
    match goal with
    | Hu : update_rows _ _ _ = inr ?rows |- _ =>
        assert (Hids : profiles.id <$> rows = profiles.id <$> tbl_profiles db)
    end.
    { eapply update_rows_fmap; [|eassumption].
      intros r r' Hr. simpl in Hr. inv_sql. by subst r'. }
    unfold consistent, bookings_referenced, profile_ids, event_ids, booking_ids in *.
    simpl. rewrite Hids. done.
  - apply insert_events_shape in H as (r & -> & Hfree & Href).
    by apply consistent_add_event.
  - destruct Hc as (Hpa & Hnp & Hne & Hnb & Hun & Hev & Hbk).
    unfold update_events in H. inv_sql. subst db'.
    match goal with
    | Hu : update_rows _ _ _ = inr ?rows |- _ =>
        assert (Hids : events.id <$> rows = events.id <$> tbl_events db);
        [|assert (Hrefs : Forall (λ e, references (events.created_by e)
                                         (profile_ids db) = true) rows)]
    end.
    { eapply update_rows_fmap; [|eassumption].
      intros r r' Hr. simpl in Hr. inv_sql. subst r'.
      match goal with
      | Ht : events.typed _ _ = inr _ |- _ =>
          unfold events.typed in Ht; inv_sql; by subst
      end. }
    { eapply update_rows_Forall; [|exact Hev|eassumption].
      intros r r' Hr. simpl in Hr. unfold events_constraints in Hr.
      inv_sql. by subst r'. }
    unfold consistent, bookings_referenced, profile_ids, event_ids, booking_ids in *.
    simpl. rewrite Hids. done.
  - destruct Hc as (Hpa & Hnp & Hne & Hnb & Hun & Hev & Hbk).
    unfold insert_bookings, bookings_constraints in H. inv_sql. subst db'.
    repeat match goal with
           | Hk : key_free _ _ = true |- _ => apply key_free_true in Hk
           end.
    unfold consistent, bookings_referenced, profile_ids, event_ids, booking_ids in *.
    simpl. repeat split; try done.
    + rewrite fmap_app. by apply NoDup_snoc_key.
    + apply Forall_app. split; [done|]. by constructor.
  - destruct Hc as (Hpa & Hnp & Hne & Hnb & Hun & Hev & Hbk).
    unfold update_bookings in H. inv_sql. subst db'.
    match goal with
    | Hu : update_rows _ _ _ = inr ?rows |- _ =>
        assert (Hids : bookings.id <$> rows = bookings.id <$> tbl_bookings db);
        [|assert (Hrefs : Forall
                    (λ b, references (bookings.event_id b) (event_ids db) = true
                          ∧ references (bookings.user_id b) (profile_ids db) = true)
                    rows)]
    end.
    { eapply update_rows_fmap; [|eassumption].
      intros r r' Hr. simpl in Hr. inv_sql. by subst r'. }
    { eapply update_rows_Forall; [|exact Hbk|eassumption].
      intros r r' Hr. simpl in Hr. unfold bookings_constraints in Hr.
      inv_sql. by subst r'. }
    unfold consistent, bookings_referenced, profile_ids, event_ids, booking_ids in *.
    simpl. rewrite Hids. done.
Qed.

Lemma reachable_consistent (db : database) : reachable db → consistent db.
Proof.
  induction 1 as [gen now db H | db db' _ IH Hstep].
  - by eapply migration_consistent.
  - by eapply step_consistent.
Qed.

(** X1.  A new identity gets exactly one profile, not an admin; in every
    reachable state the profiles are the identities, one row each. *)
Theorem new_identity_one_profile :
  (∀ new_id full_name avatar_url now db db',
     on_auth_user_created new_id full_name avatar_url now db = inr db' →
     (new_id ∉ profile_ids db)
     ∧ auth_users db' = (auth_users db ++ [new_id])%list
     ∧ tbl_profiles db'
       = (tbl_profiles db
            ++ [profiles.mk new_id None full_name avatar_url (Some false)
                  (Some now) (Some now)])%list
     ∧ tbl_events db' = tbl_events db ∧ tbl_bookings db' = tbl_bookings db)
  ∧ (∀ db, reachable db → profile_ids db = auth_users db ∧ NoDup (profile_ids db)).
Proof.
  split.
  - intros new_id fn av now db db' H.
    unfold on_auth_user_created, handle_new_user in H. inv_sql. subst db'.
    repeat match goal with
           | Hk : key_free _ _ = true |- _ => apply key_free_true in Hk
           end.
    done.
  - intros db Hr. by destruct (reachable_consistent db Hr) as (? & ? & _).
Qed.

Lemma new_identity_one_profile_sample :
  reachable db_alice_bob
  ∧ profile_ids db_alice_bob = auth_users db_alice_bob
  ∧ NoDup (profile_ids db_alice_bob).
Proof.
  split; [apply db_alice_bob_reachable|].
  apply (proj2 new_identity_one_profile db_alice_bob), db_alice_bob_reachable.
Defined.





(** ** Statements without a policy *)

Lemma filter_denied {R} (w p : R → bool) (l : list R) :
  (∀ r, p r = false) →
  List.filter (λ r, w r && p r) l = []
  ∧ List.filter (λ r, negb (w r && p r)) l = l.
Proof.
  intros Hp. split.
  - rewrite (filter_agree _ (λ _, false)).
    + induction l as [|r l IH]; [done | exact IH].
    + intros r. by rewrite Hp, andb_false_r.
  - apply filter_all. intros r. by rewrite Hp, andb_false_r.
Qed.

Lemma filter_refers_to_nil {R} (f : R → option uuid) (l : list R) :
  List.filter (λ r, negb (refers_to (f r) [])) l = l.
Proof.
  apply filter_all. intros r. unfold refers_to. destruct (f r) as [k|]; [|done].
  rewrite bool_decide_eq_false_2; [done|]. apply not_elem_of_nil.
Qed.

(** X4.  No policy is declared [FOR DELETE]: whoever asks, a DELETE on
    bookings, events or profiles removes no row and the database stays as
    it is. *)
Theorem delete_removes_nothing (auth_uid : identity) (db : database) :
  (∀ where_, delete_bookings auth_uid where_ db = inr db)
  ∧ (∀ where_, delete_events auth_uid where_ db = inr db)
  ∧ (∀ where_, delete_profiles auth_uid where_ db = inr db).
Proof.
  split; [|split]; intros where_.
  - unfold delete_bookings.
    destruct (filter_denied where_ (rls_using DELETE (bookings_policies auth_uid))
                (tbl_bookings db) (λ _, eq_refl)) as [_ ->].
    by destruct db.
  - unfold delete_events.
    destruct (filter_denied where_ (rls_using DELETE (events_policies auth_uid db))
                (tbl_events db) (λ _, eq_refl)) as [-> ->].
    simpl. rewrite filter_refers_to_nil. by destruct db.
  - unfold delete_profiles.
    destruct (filter_denied where_ (rls_using DELETE (profiles_policies auth_uid))
                (tbl_profiles db) (λ _, eq_refl)) as [-> ->].
    simpl. rewrite filter_refers_to_nil.
    rewrite (bind_inr_l _ _ tt); [by destruct db|].
    apply require_true, forallb_forall. intros e _.
    unfold refers_to. destruct (events.created_by e) as [k|]; [|done].
    rewrite bool_decide_eq_false_2; [done|]. apply not_elem_of_nil.
Qed.


(** ** A user's own profile *)

Lemma profiles_update_using (auth_uid : identity) (r : profiles.row) :
  rls_using UPDATE (profiles_policies auth_uid) r
  = sql_true (sql_eq auth_uid (Some (profiles.id r))).
Proof.
  transitivity (sql_true (sql_eq auth_uid (Some (profiles.id r))) || false);
    [reflexivity | apply orb_false_r].
Qed.

Lemma profiles_update_check (auth_uid : identity) (r : profiles.row) :
  rls_check UPDATE (profiles_policies auth_uid) r
  = sql_true (sql_eq auth_uid (Some (profiles.id r))).
Proof.
  transitivity (sql_true (sql_eq auth_uid (Some (profiles.id r))) || false);
    [reflexivity | apply orb_false_r].
Qed.



Lemma omap_username_same (sel : profiles.row → bool) (g : profiles.row → profiles.row)
    (rows : list profiles.row) :
  (∀ p, profiles.username (g p) = profiles.username p) →
  omap profiles.username ((λ p, if sel p then g p else p) <$> rows)
  = omap profiles.username rows.
Proof.
  intros Hg. induction rows as [|p rows IH]; [done|].
  assert (Hp : profiles.username (if sel p then g p else p) = profiles.username p)
    by (destruct (sel p); [apply Hg | done]).
  simpl. rewrite Hp. unfold omap, fmap in IH. by rewrite IH.
Qed.

(** X7.  The policy on profiles covers every column: a user who has a profile
    can set the admin flag of that profile, and from then on passes the
    INSERT and UPDATE policies of events. *)
Theorem own_profile_admin_flag (u : uuid) (db : database) :
  u ∈ profile_ids db → usernames_unique (tbl_profiles db) = true →
  ∃ db', update_profiles (Some u) (λ p, bool_decide (profiles.id p = u))
           (set_is_admin (Some true)) db = inr db'
         ∧ is_admin_identity (Some u) db'
         ∧ (∀ r, rls_check INSERT (events_policies (Some u) db') r = true)
         ∧ (∀ r, rls_using UPDATE (events_policies (Some u) db') r = true).
Proof.
  intros Hu Hun.
  set (g := λ p, profiles.with_key (profiles.id p) (set_is_admin (Some true) p)).
  set (sel := λ p, bool_decide (profiles.id p = u)
                   && rls_using UPDATE (profiles_policies (Some u)) p).
  set (rows' := (λ p, if sel p then g p else p) <$> tbl_profiles db).
  assert (Hupd : update_profiles (Some u) (λ p, bool_decide (profiles.id p = u))
                   (set_is_admin (Some true)) db = inr (set_profiles db rows')).
  { unfold update_profiles.
    rewrite (bind_inr_l _ _ rows').
    - rewrite (bind_inr_l _ _ tt); [done|]. apply require_true.
      unfold usernames_unique, rows' in *. by rewrite omap_username_same.
    - apply (update_rows_all sel _ g). intros p _ Hsel.
      apply andb_true_iff in Hsel as [Hid _]. apply bool_decide_eq_true in Hid.
      rewrite (bind_inr_l _ _ tt); [done|]. apply require_true.
      rewrite profiles_update_check. apply sql_eq_true. exists u.
      split; [done|]. simpl. by rewrite Hid. }
  assert (Hadm : is_admin_identity (Some u) (set_profiles db rows')).
  { apply list_elem_of_fmap in Hu as (p & -> & Hp).
    exists (g p). split; [|done]. simpl. unfold rows'.
    apply list_elem_of_fmap. exists p. split; [|done].
    assert (sel p = true) as ->; [|done].
    unfold sel. rewrite profiles_update_using. apply andb_true_iff.
    split; [by apply bool_decide_eq_true|]. apply sql_eq_true. eauto. }
  exists (set_profiles db rows'). split; [exact Hupd|]. split; [exact Hadm|].
  apply exists_admin_profile_true in Hadm.
  split; intros r.
  - by rewrite events_insert_check.
  - by rewrite events_update_using.
Qed.

Lemma own_profile_admin_flag_sample :
  ∃ db', update_profiles (Some "bob") (λ p, bool_decide (profiles.id p = "bob"))
           (set_is_admin (Some true)) db_alice_bob = inr db'
         ∧ is_admin_identity (Some "bob") db'
         ∧ (∀ r, rls_check INSERT (events_policies (Some "bob") db') r = true)
         ∧ (∀ r, rls_using UPDATE (events_policies (Some "bob") db') r = true).
Proof.
  apply (own_profile_admin_flag "bob" db_alice_bob).
  - compute_done.
  - by vm_compute.
Defined.

(** ** The status of a booking as text *)

(** X8.  The enum reads back the label it writes, and reads nothing else: an
    INSERT of a booking whose status is any other text fails on the
    conversion, whoever asks; an INSERT that leaves the status out
    stores pending. *)
Theorem booking_status_text :
  (∀ s, booking_status_in (booking_status_label s) = inr s)
  ∧ (∀ t s, booking_status_in t = inr s → t = booking_status_label s)
  ∧ (∀ auth_uid fresh now v db t,
       bookings.v_status v = VALUE (Some t) →
       (∀ s, t ≠ booking_status_label s) →
       insert_bookings auth_uid fresh now v db = inl invalid_text_representation)
  ∧ (∀ auth_uid fresh now v db db',
       bookings.v_status v = DEFAULT →
       insert_bookings auth_uid fresh now v db = inr db' →
       ∃ b, tbl_bookings db' = (tbl_bookings db ++ [b])%list
            ∧ bookings.status b = Some pending).
Proof.
  assert (Hin : ∀ t s, booking_status_in t = inr s → t = booking_status_label s).
  { intros t s. unfold booking_status_in.
    repeat case_bool_decide; intros [= <-]; done. }
  split; [by intros []|]. split; [exact Hin|]. split.
  - intros auth_uid fresh now v db t Hv Hno. unfold insert_bookings.
    rewrite Hv. simpl.
    destruct (booking_status_in t) as [e|s] eqn:E.
    + unfold booking_status_in in E.
      repeat case_bool_decide; try discriminate. by injection E as <-.
    + exfalso. by apply (Hno s), Hin.
  - intros auth_uid fresh now v db db' Hv H. unfold insert_bookings in H.
    rewrite Hv in H. simpl in H. inv_sql. subst db'. simpl. eauto.
Qed.

(** ** Walking through the pages *)

Lemma page_buttons_spec (s : App) (p : Z) : p ∈ page_buttons s ↔ 1 ≤ p ≤ totalPages s.
Proof.
  unfold page_buttons. rewrite list_elem_of_fmap. split.
  - intros (i & -> & Hi). apply elem_of_seqZ in Hi. lia.
  - intros Hp. exists (p - 1). split; [lia|]. apply elem_of_seqZ. lia.
Qed.

(** X9.  On a page between 1 and [totalPages], every pagination control
    leaves the current page between 1 and [totalPages]: previous and next
    move by one unless disabled, and the numbered buttons are exactly the
    pages 1 to [totalPages]. *)
Theorem pagination_stays_in_range (s : App) :
  1 ≤ currentPage s ≤ totalPages s →
  1 ≤ currentPage (click_previous s) ≤ totalPages (click_previous s)
  ∧ 1 ≤ currentPage (click_next s) ≤ totalPages (click_next s)
  ∧ (∀ p, p ∈ page_buttons s ↔ 1 ≤ p ≤ totalPages s)
  ∧ (∀ p, p ∈ page_buttons s →
          1 ≤ currentPage (setCurrentPage p s) ≤ totalPages (setCurrentPage p s))
  ∧ (previous_disabled s = false → currentPage (click_previous s) = currentPage s - 1)
  ∧ (next_disabled s = false → currentPage (click_next s) = currentPage s + 1).
Proof.
  intros Hp.
  unfold click_previous, click_next, previous_disabled, next_disabled,
    previousPage, nextPage.
  split; [|split; [|split; [|split; [|split]]]].
  - case_bool_decide; [done|]. unfold totalPages in *. simpl. lia.
  - case_bool_decide; [done|]. unfold totalPages in *. simpl. lia.
  - apply page_buttons_spec.
  - intros p Hin. apply page_buttons_spec in Hin. unfold totalPages in *. simpl. lia.
  - intros Hd. rewrite Hd. simpl. apply bool_decide_eq_false in Hd. lia.
  - intros Hd. rewrite Hd. simpl. apply bool_decide_eq_false in Hd.
    unfold totalPages in *. lia.
Qed.

Lemma pagination_stays_in_range_sample :
  1 ≤ currentPage bob_app ≤ totalPages bob_app
  ∧ 1 ≤ currentPage (click_next bob_app) ≤ totalPages (click_next bob_app).
Proof.
  assert (H : 1 ≤ currentPage bob_app ≤ totalPages bob_app) by (by vm_compute).
  split; [exact H|].
  by destruct (pagination_stays_in_range bob_app H) as (_ & Hnext & _).
Defined.

(** X10.  With no events counted there is no numbered button, yet on page 1
    the next button is enabled and leads to page 0; from there only the
    previous button works, and it leads back to page 1. *)
Theorem pagination_without_events (s : App) :
  totalCount s = 0 → currentPage s = 1 →
  page_buttons s = []
  ∧ previous_disabled s = true
  ∧ next_disabled s = false
  ∧ currentPage (click_next s) = 0
  ∧ next_disabled (click_next s) = true
  ∧ previous_disabled (click_next s) = false
  ∧ currentPage (click_previous (click_next s)) = 1.
Proof.
  intros Hc Hp.
  assert (Ht : totalPages s = 0) by (unfold totalPages; by rewrite Hc).
  assert (Hn : click_next s = setCurrentPage 0 s).
  { unfold click_next, next_disabled, nextPage. rewrite Ht, Hp. done. }
  rewrite Hn.
  unfold page_buttons, previous_disabled, next_disabled, click_previous,
    previous_disabled, previousPage.
  rewrite Ht, Hp. unfold totalPages. simpl. rewrite Hc. done.
Qed.

Lemma pagination_without_events_sample :
  totalCount (fetchEvents (λ _, "") empty_backend (initial_App None)) = 0
  ∧ currentPage
      (click_next (fetchEvents (λ _, "") empty_backend (initial_App None))) = 0.
Proof.
  assert (Hc : totalCount (fetchEvents (λ _, "") empty_backend (initial_App None)) = 0)
    by (by vm_compute).
  split; [exact Hc|].
  by destruct (pagination_without_events
                 (fetchEvents (λ _, "") empty_backend (initial_App None))
                 Hc eq_refl) as (_ & _ & _ & H & _).
Defined.





(** ** A fetch that fails *)

(** X12.  When the request does not get through, [fetchEvents] keeps the events
    and the current page, raises one notification and ends the loading
    state, but sets the total count to 0: the numbered buttons are gone
    while the old events stay on screen.  Whatever the backend does,
    loading has ended when [fetchEvents] has. *)
Theorem fetchEvents_offline toLocale (be : backend) (s : App) :
  isLoading (fetchEvents toLocale be s) = false
  ∧ (be_online be = false →
     events_ (fetchEvents toLocale be s) = events_ s
     ∧ currentPage (fetchEvents toLocale be s) = currentPage s
     ∧ toasts (fetchEvents toLocale be s) = (toasts s ++ ["Failed to load events"])%list
     ∧ totalCount (fetchEvents toLocale be s) = 0
     ∧ page_buttons (fetchEvents toLocale be s) = []
     ∧ selectedEventId (fetchEvents toLocale be s) = selectedEventId s
     ∧ isModalOpen (fetchEvents toLocale be s) = isModalOpen s).
Proof.
  split.
  - unfold fetchEvents. by destruct (error _).
  - intros Hoff.
    assert (H : fetchEvents toLocale be s
                = setIsLoading false
                    (toast_error "Failed to load events"
                       (setTotalCount 0 (setIsLoading true s)))).
    { unfold fetchEvents, events_range_by_date, count_events. rewrite Hoff. done. }
    rewrite H. unfold page_buttons, totalPages. simpl. done.
Qed.

Lemma fetchEvents_offline_sample :
  events_ (fetchEvents (λ _, "") (mk_backend db_alice_bob false) bob_app)
  = events_ bob_app
  ∧ totalCount (fetchEvents (λ _, "") (mk_backend db_alice_bob false) bob_app) = 0.
Proof.
  destruct (fetchEvents_offline (λ _, "") (mk_backend db_alice_bob false) bob_app)
    as [_ H].
  destruct (H eq_refl) as (He & _ & _ & Hc & _). by split.
Defined.

(** ** From a card to the booking form *)

Lemma find_first_id (i : string) (evs : list Event.t) (e : Event.t) :
  e ∈ evs → Event.id e = i → NoDup (Event.id <$> evs) →
  List.find (λ event, bool_decide (Event.id event = i)) evs = Some e.
Proof.
  intros Hin Hid Hnd. induction evs as [|x evs IH]; [by apply elem_of_nil in Hin|].
  simpl. rewrite fmap_cons in Hnd. apply NoDup_cons in Hnd as [Hx Hnd].
  apply elem_of_cons in Hin as [<-|Hin].
  - by rewrite bool_decide_eq_true_2.
  - rewrite bool_decide_eq_false_2; [by apply IH|].
    intros Hxi. apply Hx. rewrite Hxi, <- Hid. by apply list_elem_of_fmap_2.
Qed.

(** X13.  A signed-in user who clicks the enabled button of a card on the page
    gets the booking form for exactly that event; a signed-out one gets the
    sign-in form instead, and neither the booking form nor a selected
    event. *)
Theorem click_book_selects (e : Event.t) (s : App) :
  e ∈ events_ s → NoDup (Event.id <$> events_ s) →
  button_disabled (EventCard e) = false →
  (∀ u, user s = Some u →
        selectedEvent (click_book e s) = Some e
        ∧ isModalOpen (click_book e s) = true
        ∧ isAuthModalOpen (click_book e s) = isAuthModalOpen s)
  ∧ (user s = None →
     click_book e s = setIsAuthModalOpen true s
     ∧ isModalOpen (click_book e s) = isModalOpen s
     ∧ selectedEventId (click_book e s) = selectedEventId s).
Proof.
  intros Hin Hnd Hen. unfold click_book. rewrite Hen. unfold handleBookEvent.
  split.
  - intros u Hu. rewrite Hu. split; [|done].
    unfold selectedEvent. simpl. by apply find_first_id.
  - intros Hu. by rewrite Hu.
Qed.

Lemma click_book_selects_sample :
  selectedEvent
    (click_book bob_event
       (fetchEvents (λ _, "4/15/2024") (mk_backend db_alice_bob true)
          (initial_App (Some bob))))
  = Some bob_event.
Proof.
  destruct (click_book_selects bob_event
              (fetchEvents (λ _, "4/15/2024") (mk_backend db_alice_bob true)
                 (initial_App (Some bob))))
    as [H _].
  - vm_compute. by left.
  - compute_done.
  - by vm_compute.
  - by destruct (H bob eq_refl) as [? _].
Defined.

(** The events a fetch puts on the page are events of the database, and
    no two of them share an id when the keys of the table are unique. *)
Lemma fetched_events_ids toLocale (be : backend) (s : App) :
  be_online be = true → 1 ≤ currentPage s →
  (∀ e, e ∈ events_ (fetchEvents toLocale be s) → Event.id e ∈ event_ids (be_db be))
  ∧ (NoDup (event_ids (be_db be)) →
     NoDup (Event.id <$> events_ (fetchEvents toLocale be s))).
Proof.
  intros Hon Hp. destruct (fetchEvents_online toLocale be s Hon Hp) as [-> _].
  pose proof (merge_sort_Permutation events_by_date (tbl_events (be_db be))) as Hperm.
  set (l := merge_sort events_by_date (tbl_events (be_db be))) in *.
  set (n := Z.to_nat ((currentPage s - 1) * 9)).
  assert (Hsub : sublist (take 9 (drop n l)) l).
  { etransitivity; [apply sublist_take | apply sublist_drop]. }
  split.
  - intros e He. apply list_elem_of_fmap in He as (r & -> & Hr).
    simpl. unfold event_ids. apply list_elem_of_fmap_2.
    rewrite <- Hperm. by eapply elem_of_sublist.
  - intros Hnd. rewrite <- list_fmap_compose.
    change (Event.id ∘ transform toLocale) with events.id.
    eapply sublist_NoDup; [|by apply fmap_sublist].
    unfold event_ids in Hnd. by rewrite Hperm.
Qed.

(** ** A submission that resolves *)

Lemma handleSubmit_resolved {W : Type}
    (onSubmit : BookingFormData → W → settled * W)
    (m : BookingModal) (w w' : W) :
  onSubmit (formData m) w = (resolved, w') →
  handleSubmit onSubmit m w
  = (mk_BookingModal (formData m) false true,
     [mk_timer 2000 close_after_success], w').
Proof.
  intros H. unfold handleSubmit. cbn [formData setIsSubmitting].
  rewrite H. done.
Qed.

Lemma handleBookingSubmit_guard (fresh : uuid) (now : timestamptz)
    (form : BookingFormData) (be : backend) (s : App) :
  user s = None ∨ js_truthy (selectedEventId s) = false →
  handleBookingSubmit fresh now form (be, s) = (resolved, (be, s)).
Proof.
  intros H. unfold handleBookingSubmit.
  destruct (user s) as [u|]; [|done].
  destruct H as [H|H]; [done|].
  destruct (selectedEventId s) as [i|]; [|done]. by rewrite H.
Qed.

(** X14.  Without a signed-in user, or without a selected event id, submitting
    the form sends nothing and changes neither the database nor the page
    state of [App]; the modal nevertheless shows the success view and sets
    its closing timer. *)
Theorem submit_without_user_or_event (fresh : uuid) (now : timestamptz) (p : page) :
  user (page_app p) = None ∨ js_truthy (selectedEventId (page_app p)) = false →
  page_backend (submit_booking_form fresh now p) = page_backend p
  ∧ page_app (submit_booking_form fresh now p) = page_app p
  ∧ page_modal (submit_booking_form fresh now p)
    = mk_BookingModal (formData (page_modal p)) false true
  ∧ page_timers (submit_booking_form fresh now p)
    = (page_timers p ++ [mk_timer 2000 close_after_success])%list
  ∧ (isModalOpen (page_app p) = true →
     page_view (submit_booking_form fresh now p) = view_success).
Proof.
  intros H. unfold submit_booking_form, page_view.
  rewrite (handleSubmit_resolved _ _ _ _
             (handleBookingSubmit_guard fresh now _ (page_backend p) (page_app p) H)).
  cbn [page_backend page_app page_modal page_timers].
  repeat split; try done.
  intros Hopen. unfold render_BookingModal. by rewrite Hopen.
Qed.

(** Bob's session has ended while the form was open. *)
Lemma submit_without_user_or_event_sample :
  tbl_bookings
    (be_db (page_backend
              (submit_booking_form "booking-1" 4
                 (form_page (mk_backend db_alice_bob true)
                    (setIsModalOpen true (initial_App None)) bob_form)))) = []
  ∧ page_view
      (submit_booking_form "booking-1" 4
         (form_page (mk_backend db_alice_bob true)
            (setIsModalOpen true (initial_App None)) bob_form))
    = view_success.
Proof.
  destruct (submit_without_user_or_event "booking-1" 4
              (form_page (mk_backend db_alice_bob true)
                 (setIsModalOpen true (initial_App None)) bob_form)
              (or_introl eq_refl))
    as (Hbe & _ & _ & _ & Hview).
  split; [by rewrite Hbe | by apply Hview].
Defined.

(** X15.  When the submission resolves, the modal shows the success view with
    [isSubmitting] false and one timer of two seconds; when that timer
    fires the modal is closed, shows nothing, and its form is empty again,
    while the selected event stays selected. *)
Theorem submit_resolved_then_closes (fresh : uuid) (now : timestamptz) (p : page)
    (w' : backend * App) :
  handleBookingSubmit fresh now (formData (page_modal p))
    (page_backend p, page_app p) = (resolved, w') →
  page_timers p = [] →
  page_modal (submit_booking_form fresh now p)
  = mk_BookingModal (formData (page_modal p)) false true
  ∧ page_timers (submit_booking_form fresh now p) = [mk_timer 2000 close_after_success]
  ∧ (isModalOpen (snd w') = true →
     page_view (submit_booking_form fresh now p) = view_success)
  ∧ page_modal (fire_timer (submit_booking_form fresh now p)) = initial_BookingModal
  ∧ page_timers (fire_timer (submit_booking_form fresh now p)) = []
  ∧ isModalOpen (page_app (fire_timer (submit_booking_form fresh now p))) = false
  ∧ page_view (fire_timer (submit_booking_form fresh now p)) = view_null
  ∧ selectedEventId (page_app (fire_timer (submit_booking_form fresh now p)))
    = selectedEventId (snd w')
  ∧ page_backend (fire_timer (submit_booking_form fresh now p)) = fst w'.
Proof.
  intros H Ht. destruct w' as [be' s'].
  unfold submit_booking_form, page_view, fire_timer.
  rewrite (handleSubmit_resolved _ _ _ _ H), Ht.
  cbn [page_backend page_app page_modal page_timers app run_callback fires fst snd].
  repeat split; try done.
  intros Hopen. unfold render_BookingModal. by rewrite Hopen.
Qed.

Lemma submit_resolved_then_closes_sample :
  page_view (submit_booking_form "booking-1" 4
               (bob_page (mk_backend db_alice_bob true))) = view_success
  ∧ page_view (fire_timer (submit_booking_form "booking-1" 4
                             (bob_page (mk_backend db_alice_bob true)))) = view_null
  ∧ page_modal (fire_timer (submit_booking_form "booking-1" 4
                              (bob_page (mk_backend db_alice_bob true))))
    = initial_BookingModal.
Proof.
  assert (H : handleBookingSubmit "booking-1" 4
                (formData (page_modal (bob_page (mk_backend db_alice_bob true))))
                (page_backend (bob_page (mk_backend db_alice_bob true)),
                 page_app (bob_page (mk_backend db_alice_bob true)))
              = (resolved, (mk_backend db_booked true, bob_app)))
    by (by vm_compute).
  destruct (submit_resolved_then_closes "booking-1" 4
              (bob_page (mk_backend db_alice_bob true)) _ H eq_refl)
    as (_ & _ & Hv & Hm & _ & _ & Hn & _).
  split; [apply Hv; by vm_compute|]. by split.
Defined.

(** ** From the list to the booking *)

Lemma fetchEvents_user toLocale (be : backend) (s : App) :
  user (fetchEvents toLocale be s) = user s.
Proof. unfold fetchEvents. by destruct (error _). Qed.

Lemma click_book_signed_in (e : Event.t) (s : App) (u : auth_user) :
  e ∈ events_ s → NoDup (Event.id <$> events_ s) →
  button_disabled (EventCard e) = false → user s = Some u →
  user (click_book e s) = Some u
  ∧ selectedEvent (click_book e s) = Some e
  ∧ isModalOpen (click_book e s) = true.
Proof.
  intros Hin Hnd Hen Hu. unfold click_book. rewrite Hen.
  unfold handleBookEvent. rewrite Hu. split; [done|]. split; [|done].
  unfold selectedEvent. simpl. by apply find_first_id.
Qed.

(** X16.  A signed-in user with a profile who fetches a page, clicks the
    enabled button of one of its events and submits the form gets one new
    bookings row for that event, pending, with the preferences typed; the
    success view is shown.  (The keys of the events table are unique, the
    event's id is not empty, and the database has not changed since the
    fetch.) *)
Theorem book_fetched_event toLocale (db : database) (s : App) (u : auth_user)
    (e : Event.t) (form : BookingFormData) (fresh : uuid) (now : timestamptz) :
  user s = Some u → 1 ≤ currentPage s → NoDup (event_ids db) →
  e ∈ events_ (fetchEvents toLocale (mk_backend db true) s) →
  Event.id e ≠ "" → button_disabled (EventCard e) = false →
  auth_user_id u ∈ profile_ids db → fresh ∉ booking_ids db →
  tbl_bookings
    (be_db (page_backend
              (submit_booking_form fresh now
                 (form_page (mk_backend db true)
                    (click_book e (fetchEvents toLocale (mk_backend db true) s))
                    form))))
  = (tbl_bookings db ++ [submitted_booking fresh now e u form])%list
  ∧ page_view
      (submit_booking_form fresh now
         (form_page (mk_backend db true)
            (click_book e (fetchEvents toLocale (mk_backend db true) s)) form))
    = view_success.
Proof.
  intros Hu Hp Hnd Hin Hne Hen Hprof Hfresh.
  destruct (fetched_events_ids toLocale (mk_backend db true) s eq_refl Hp)
    as [Hids Hnd'].
  specialize (Hids e Hin). specialize (Hnd' Hnd). simpl in Hids.
  rewrite <- (fetchEvents_user toLocale (mk_backend db true) s) in Hu.
  destruct (click_book_signed_in e _ u Hin Hnd' Hen Hu) as (Hu' & Hsel & Hopen).
  set (s1 := click_book e (fetchEvents toLocale (mk_backend db true) s)) in *.
  pose proof (handleBookingSubmit_ok fresh now form db s1 u e Hu' Hsel Hne
                Hids Hprof Hfresh) as Hok.
  unfold submit_booking_form, page_view, form_page.
  cbn [page_backend page_app page_modal page_timers].
  rewrite (handleSubmit_resolved (handleBookingSubmit fresh now)
             (setFormData form initial_BookingModal) _ _ Hok).
  cbn [page_backend page_app page_modal be_db]. split; [done|].
  unfold render_BookingModal. by rewrite Hopen.
Qed.

Lemma book_fetched_event_sample :
  tbl_bookings
    (be_db (page_backend
              (submit_booking_form "booking-1" 4
                 (form_page (mk_backend db_alice_bob true)
                    (click_book bob_event
                       (fetchEvents (λ _, "4/15/2024")
                          (mk_backend db_alice_bob true) (initial_App (Some bob))))
                    bob_form))))
  = (tbl_bookings db_alice_bob
       ++ [submitted_booking "booking-1" 4 bob_event bob bob_form])%list.
Proof.
  apply (book_fetched_event (λ _, "4/15/2024") db_alice_bob (initial_App (Some bob))
           bob bob_event bob_form "booking-1" 4).
  - done.
  - simpl. lia.
  - compute_done.
  - vm_compute. by left.
  - by vm_compute.
  - by vm_compute.
  - compute_done.
  - compute_done.
Defined.

(** ** The carousel *)

Lemma nextSlide_iter {A} (events : list A) (i : Z) (k : nat) :
  0 ≤ i < Z.of_nat (length events) →
  Nat.iter k (EventCarousel.nextSlide events) i
  = (i + Z.of_nat k) `mod` Z.of_nat (length events).
Proof.
  intros Hi. induction k as [|k IH].
  - simpl. rewrite Z.add_0_r, Z.mod_small; lia.
  - simpl. rewrite IH. unfold EventCarousel.nextSlide.
    set (n := Z.of_nat (length events)) in *.
    pose proof (Z.mod_pos_bound (i + Z.of_nat k) n ltac:(lia)) as Hr.
    pose proof (Z.div_mod (i + Z.of_nat k) n ltac:(lia)) as Hdm.
    case_bool_decide as Hlast.
    + apply (Z.mod_unique _ _ ((i + Z.of_nat k) `div` n + 1)); lia.
    + apply (Z.mod_unique _ _ ((i + Z.of_nat k) `div` n)); lia.
Qed.

(** X17.  While the index is that of a slide, next and previous keep it one,
    undo each other, and as many steps forward as there are slides pass
    through every slide and come back to the start. *)
Theorem carousel_cycles {A} (events : list A) (i : Z) :
  0 ≤ i < Z.of_nat (length events) →
  0 ≤ EventCarousel.nextSlide events i < Z.of_nat (length events)
  ∧ 0 ≤ EventCarousel.prevSlide events i < Z.of_nat (length events)
  ∧ EventCarousel.prevSlide events (EventCarousel.nextSlide events i) = i
  ∧ EventCarousel.nextSlide events (EventCarousel.prevSlide events i) = i
  ∧ Nat.iter (length events) (EventCarousel.nextSlide events) i = i
  ∧ (∀ j, 0 ≤ j < Z.of_nat (length events) →
          ∃ k, (k < length events)%nat
               ∧ Nat.iter k (EventCarousel.nextSlide events) i = j)
  ∧ is_Some (EventCarousel.shown events i).
Proof.
  intros Hi. unfold EventCarousel.nextSlide, EventCarousel.prevSlide.
  split; [case_bool_decide; lia|]. split; [case_bool_decide; lia|].
  split; [repeat case_bool_decide; lia|]. split; [repeat case_bool_decide; lia|].
  fold (EventCarousel.nextSlide events). split; [|split].
  - rewrite nextSlide_iter by done.
    rewrite <- (Z.mul_1_l (Z.of_nat (length events))) at 1.
    rewrite Z.mod_add by lia. apply Z.mod_small. lia.
  - intros j Hj.
    exists (Z.to_nat ((j - i) `mod` Z.of_nat (length events))).
    pose proof (Z.mod_pos_bound (j - i) (Z.of_nat (length events)) ltac:(lia)) as Hr.
    split; [lia|]. rewrite nextSlide_iter by done.
    rewrite Z2Nat.id by lia. rewrite Zplus_mod_idemp_r.
    replace (i + (j - i)) with j by lia. apply Z.mod_small. lia.
  - unfold EventCarousel.shown. rewrite bool_decide_eq_true_2 by lia.
    apply lookup_lt_is_Some. lia.
Qed.

Lemma carousel_cycles_sample :
  Nat.iter (length (events_ bob_app)) (EventCarousel.nextSlide (events_ bob_app)) 3 = 3.
Proof.
  destruct (carousel_cycles (events_ bob_app) 3) as (_ & _ & _ & _ & H & _).
  - by vm_compute.
  - exact H.
Defined.

(** X18.  An index at or past the number of slides shows no slide, and the
    timer and the next button only move it further away: after [k] steps
    it has grown by [k].  This is the case from the start while the list
    is empty, and after the list has become shorter than the index. *)
Theorem carousel_past_the_end {A} (events : list A) (i : Z) (k : nat) :
  Z.of_nat (length events) ≤ i →
  Nat.iter k (EventCarousel.nextSlide events) i = i + Z.of_nat k
  ∧ EventCarousel.shown events (Nat.iter k (EventCarousel.nextSlide events) i) = None.
Proof.
  intros Hi.
  assert (Hk : Nat.iter k (EventCarousel.nextSlide events) i = i + Z.of_nat k).
  { induction k as [|k IH]; simpl; [lia|]. rewrite IH.
    unfold EventCarousel.nextSlide. rewrite bool_decide_eq_false_2; lia. }
  split; [exact Hk|]. rewrite Hk. unfold EventCarousel.shown.
  rewrite bool_decide_eq_true_2 by lia. apply lookup_ge_None. lia.
Qed.

(** Three ticks of the timer while no events have arrived. *)
Lemma carousel_past_the_end_sample :
  Nat.iter 3 (EventCarousel.nextSlide (events_ (initial_App None))) 0 = 3.
Proof.
  destruct (carousel_past_the_end (events_ (initial_App None)) 0 3) as [H _].
  - simpl. lia.
  - exact H.
Defined.

(** ** Searching the page *)

Lemma append_String (a : Ascii.ascii) (s t : string) :
  String a s +:+ t = String a (s +:+ t).
Proof. reflexivity. Qed.

Lemma prefix_spec (sub s : string) :
  String.prefix sub s = true ↔ ∃ post, s = sub +:+ post.
Proof.
  revert s. induction sub as [|a sub IH]; intros s.
  - destruct s; simpl; split; eauto.
  - destruct s as [|b s]; simpl.
    + split; [discriminate|]. intros [post H]. rewrite append_String in H. done.
    + destruct (Ascii.ascii_dec a b) as [->|Hne].
      * rewrite IH. split; intros [post H]; exists post;
          rewrite append_String in *; congruence.
      * split; [discriminate|]. intros [post H].
        rewrite append_String in H. congruence.
Qed.

(** [includes s sub] holds exactly when [sub] occurs in [s]. *)
Lemma includes_spec (s sub : string) :
  includes s sub = true ↔ ∃ pre post, s = pre +:+ sub +:+ post.
Proof.
  induction s as [|a s IH].
  - cbn [includes]. rewrite orb_false_r, prefix_spec. split.
    + intros [post H]. by exists "", post.
    + intros (pre & post & H). destruct pre as [|b pre]; [by exists post|].
      rewrite append_String in H. done.
  - cbn [includes]. rewrite orb_true_iff, prefix_spec, IH. split.
    + intros [[post H]|(pre & post & H)].
      * by exists "", post.
      * exists (String a pre), post. rewrite append_String. by rewrite H.
    + intros (pre & post & H). destruct pre as [|b pre].
      * left. by exists post.
      * right. exists pre, post. rewrite append_String in H. congruence.
Qed.

Lemma filter_throwing_sublist {A} (test : A → option bool) (l kept : list A) :
  filter_throwing test l = Some kept →
  kept `sublist_of` l ∧ ∀ x, x ∈ kept → test x = Some true.
Proof.
  revert kept. induction l as [|x l IH]; intros kept H; simpl in H.
  - injection H as <-. split; [done|]. intros x Hx. by apply elem_of_nil in Hx.
  - destruct (test x) as [b|] eqn:Hx; [|done]. simpl in H.
    destruct (filter_throwing test l) as [kept'|]; [|done]. simpl in H.
    injection H as <-. destruct (IH kept' eq_refl) as [Hsub Hall].
    destruct b.
    + split; [by apply sublist_skip|].
      intros y Hy. apply elem_of_cons in Hy as [->|Hy]; auto.
    + split; [by apply sublist_cons|]. done.
Qed.

Lemma filter_throwing_all {A} (test : A → option bool) (l : list A) :
  (∀ x, x ∈ l → test x = Some true) → filter_throwing test l = Some l.
Proof.
  induction l as [|x l IH]; intros H; simpl; [done|].
  rewrite (H x) by left. simpl. rewrite IH; [done|].
  intros y Hy. apply H. by right.
Qed.

Lemma filter_throwing_throws {A} (test : A → option bool) (l : list A) (x : A) :
  x ∈ l → test x = None → filter_throwing test l = None.
Proof.
  intros Hin Hx. induction l as [|y l IH]; [by apply elem_of_nil in Hin|].
  simpl. apply elem_of_cons in Hin as [<-|Hin]; [by rewrite Hx|].
  destruct (test y); [|done]. simpl. by rewrite IH.
Qed.

(** X19.  The search works on the events of the loaded page only: when it
    returns, the result is a sub-list of them, in their order, each with
    the lowered term in its lowered title or description.  The empty term
    keeps every event.  An event whose description is null and whose title
    does not contain the term makes the filter throw. *)
Theorem filteredEvents_of_page (toLowerCase : string → string) (s : App) :
  (∀ kept, filteredEvents toLowerCase s = Some kept →
     kept `sublist_of` events_ s
     ∧ ∀ e, e ∈ kept →
         includes (toLowerCase (Event.title e)) (toLowerCase (searchTerm s)) = true
         ∨ ∃ d, Event.description e = Some d
                ∧ includes (toLowerCase d) (toLowerCase (searchTerm s)) = true)
  ∧ (toLowerCase "" = "" → searchTerm s = "" →
     filteredEvents toLowerCase s = Some (events_ s))
  ∧ (∀ e, e ∈ events_ s → Event.description e = None →
          includes (toLowerCase (Event.title e)) (toLowerCase (searchTerm s)) = false →
          filteredEvents toLowerCase s = None).
Proof.
  unfold filteredEvents. split; [|split].
  - intros kept H. apply filter_throwing_sublist in H as [Hsub Hall].
    split; [done|]. intros e He. specialize (Hall e He).
    unfold search_test in Hall.
    destruct (includes (toLowerCase (Event.title e)) _); [by left|].
    destruct (Event.description e) as [d|]; [|done]. simpl in Hall.
    right. exists d. split; [done|]. congruence.
  - intros Hlow Hterm. apply filter_throwing_all. intros e _.
    unfold search_test. rewrite Hterm, Hlow.
    assert (includes (toLowerCase (Event.title e)) "" = true) as ->; [|done].
    by destruct (toLowerCase (Event.title e)).
  - intros e He Hd Ht. apply (filter_throwing_throws _ _ e He).
    unfold search_test. by rewrite Ht, Hd.
Qed.

(** The page of the sample history, with the event that has no
    description, under the empty search term. *)
Lemma filteredEvents_of_page_sample :
  filteredEvents (λ t, t)
    (fetchEvents (λ _, "1/1/2024") (mk_backend db_negative true) (initial_App None))
  = Some (events_ (fetchEvents (λ _, "1/1/2024") (mk_backend db_negative true)
                     (initial_App None))).
Proof.
  destruct (filteredEvents_of_page (λ t, t)
              (fetchEvents (λ _, "1/1/2024") (mk_backend db_negative true)
                 (initial_App None)))
    as (_ & H & _).
  apply H; by vm_compute.
Defined.

(** The client's declined is not a status the database takes. *)
Lemma booking_status_text_sample :
  insert_bookings (Some "bob") "booking-2" 5
    (bookings.mk_values DEFAULT (VALUE (Some "event-0")) (VALUE (Some "bob"))
       (VALUE (Some "declined")) DEFAULT DEFAULT DEFAULT)
    db_alice_bob
  = inl invalid_text_representation.
Proof.
  destruct booking_status_text as (_ & _ & H & _).
  apply (H (Some "bob") "booking-2" 5
           (bookings.mk_values DEFAULT (VALUE (Some "event-0")) (VALUE (Some "bob"))
              (VALUE (Some "declined")) DEFAULT DEFAULT DEFAULT)
           db_alice_bob "declined" eq_refl).
  intros []; discriminate.
Defined.
